(** * The [generate] workflow of the code-generation CLI

  A shallow embedding of the interactive change-review and application
  workflow of the [generate <prompt>] command (the commander action of the
  CLI entry point), together with the helpers it calls:
  [generateUnifiedDiff] (file-operations/diffGenerator.ts),
  [applyFileChange] (file-operations/fileApplier.ts) and the Git wrappers
  of git-operations/gitManager.ts.

  Strings are Rocq strings (sequences of bytes).  The collaborators the
  command talks to (the backend, simple-git, inquirer) are an explicit
  [World] of replies; the third-party libraries it links (Node's [path],
  [diff], [chalk], the runtime's [toLowerCase]) are a [Platform]. *)

From Stdlib Require Import Ascii.
From stdpp Require Import base strings list gmap.

(** ** JavaScript string helpers *)

Module JsString.

Definition LF : ascii := "010"%char.

(** [s.substring(0, n)] *)
Definition substring_to (n : nat) (s : string) : string :=
  String.substring 0 n s.

(** [hay.includes(needle)] *)
Fixpoint includes (needle hay : string) : bool :=
  if String.prefix needle hay then true
  else match hay with
       | EmptyString => false
       | String _ hay' => includes needle hay'
       end.

(** [s.split('\n')]: never empty, the empty string splits to [[""]]. *)
Fixpoint split_lines (s : string) : list string :=
  match s with
  | EmptyString => [EmptyString]
  | String c s' =>
      if Ascii.eqb c LF then EmptyString :: split_lines s'
      else match split_lines s' with
           | l :: ls => String c l :: ls
           | [] => [String c EmptyString]
           end
  end.

(** [lines.join('\n')] *)
Definition join_lines (lines : list string) : string :=
  String.concat (String LF EmptyString) lines.

(** Truthiness of a string, and of a [string | undefined | null]. *)
Definition truthy_string (s : string) : bool :=
  negb (String.eqb s "").

Definition truthy (o : option string) : bool :=
  match o with
  | Some s => truthy_string s
  | None => false
  end.

(** [o || ''] *)
Definition or_empty (o : option string) : string :=
  match o with
  | Some s => if truthy_string s then s else ""
  | None => ""
  end.

End JsString.

(** ** Data shapes (types.ts) *)

Module ScannedFile.
Record t := {
  filePath : string;
  relativePath : string;
  content : string;
}.
End ScannedFile.

(** [action] is declared ['add' | 'modify' | 'delete'], but the value is the
    backend's JSON cast to the interface: at run time it is any string.
    An optional field that is missing is [None]. *)
Record ProposedFileChange := {
  filePath : string;
  action : string;
  newContent : option string;
  reason : option string;
}.

Record LLMOutput := {
  changes : list ProposedFileChange;
  summary : string;
  thoughtProcess : option string;
}.

(** The options object commander hands to the action; the action writes to
    [yes], [noGit] and [branch].  [noGit] is the key [options.noGit] the
    action reads; see [CommandLine.optionsOf] for what the command line
    puts there. *)
Record Options := {
  path : string;
  scanDirs : option (list string);
  scanFiles : option (list string);
  yes : bool;
  noGit : bool;
  branch : option string;
}.

Definition set_yes (b : bool) (o : Options) : Options :=
  {| path := path o; scanDirs := scanDirs o; scanFiles := scanFiles o;
     yes := b; noGit := noGit o; branch := branch o |}.

Definition set_noGit (b : bool) (o : Options) : Options :=
  {| path := path o; scanDirs := scanDirs o; scanFiles := scanFiles o;
     yes := yes o; noGit := b; branch := branch o |}.

Definition set_branch (n : string) (o : Options) : Options :=
  {| path := path o; scanDirs := scanDirs o; scanFiles := scanFiles o;
     yes := yes o; noGit := noGit o; branch := Some n |}.

(** ** Libraries and collaborators *)

(** A change object of the [diff] package; a missing [added] or [removed]
    is [None]. *)
Module Diff.
Record Change := {
  value : string;
  added : option bool;
  removed : option bool;
}.

Definition common (s : string) : Change :=
  {| value := s; added := None; removed := None |}.

Definition addition (s : string) : Change :=
  {| value := s; added := Some true; removed := None |}.

Definition removal (s : string) : Change :=
  {| value := s; added := None; removed := Some true |}.
End Diff.

(** What the command links against and does not implement. *)
Class Platform := {
  toLowerCase : string → string;
  path_resolve : string → string → string;
  path_relative : string → string → string;
  diffLines : string → string → list Diff.Change;
  chalk_green : string → string;
  chalk_red : string → string;
  chalk_grey : string → string;
}.

(** The outcome of an awaited promise. *)
Inductive Reply (A : Type) :=
| Resolved (a : A)
| Rejected (message : string).
Arguments Resolved {A} a.
Arguments Rejected {A} message.

(** The four values of the decision list. *)
Inductive Confirm := Yes | No | All | Abort.

(** What the collaborators answer during one invocation.  A Git call is
    answered by its argument, the decision prompt by the position of the
    change in the proposed batch, a remote mutation by the position of the
    change in the queue of confirmed changes. *)
Record World := {
  process_cwd : string;
  auth_getAuthToken : Reply bool;
  git_checkIsRepo : Reply bool;
  git_branchLocal : Reply string;
  git_branch : string → Reply unit;
  git_checkout : string → Reply unit;
  git_add : list string → Reply unit;
  inquirer_proceedGit : bool;
  inquirer_branchNameInput : string → string;
  inquirer_confirm : nat → Confirm;
  backend_scanProject : Reply (list ScannedFile.t);
  backend_callLLM : Reply LLMOutput;
  backend_mutation : nat → Reply unit;
}.

(** The calls and the output a run produces, in order.  Informational
    [console.log] lines other than the diff are not recorded. *)
Inductive Event :=
| GetAuthToken
| GitCheckIsRepo
| GitBranchLocal
| GitBranch (name : string)
| GitCheckout (name : string)
| GitAdd (paths : list string)
| CallCreateBranch (branchName : string)
| CallStageFiles (filePaths : list string)
| CallApplyFileChange (change : ProposedFileChange)
| PromptProceedGit
| PromptBranchName (suggestion : string)
| PromptConfirm (position : nat) (change : ProposedFileChange)
| ScanProject (scanPaths : list string) (projectRoot : string)
| CallLLM (userPrompt : string)
| CreateFile (absoluteFilePath : string) (isDirectory : bool) (content : string)
| WriteFile (absoluteFilePath : string) (content : string)
| DeleteFile (absoluteFilePath : string)
| ConsoleLog (text : string)
| ConsoleWarn (text : string)
| ConsoleError (text : string)
| ProcessExit (code : nat).

(** The terminal states of the workflow: the action ran to its end or left
    through a plain [return] ([Done]), left through the [return] of the
    abort branch ([Aborted]), or ended in [process.exit(1)] ([Failed]). *)
Inductive Outcome := Done | Aborted | Failed.

(** *** Reading a trace *)

Definition applyCall (e : Event) : option ProposedFileChange :=
  match e with
  | CallApplyFileChange change => Some change
  | _ => None
  end.

(** The changes handed to [applyFileChange], in order. *)
Definition applyCalls (tr : list Event) : list ProposedFileChange :=
  omap applyCall tr.

(** A request that changes a file on the backend. *)
Definition remoteMutation (e : Event) : bool :=
  match e with
  | CreateFile _ _ _ | WriteFile _ _ | DeleteFile _ => true
  | _ => false
  end.

(** What the steps before the review can produce. *)
Definition setupEvent (e : Event) : bool :=
  match e with
  | GetAuthToken | GitCheckIsRepo | GitBranchLocal | GitBranch _
  | GitCheckout _ | CallCreateBranch _ | PromptProceedGit
  | PromptBranchName _ | ScanProject _ _ | CallLLM _
  | ConsoleWarn _ | ConsoleError _ | ProcessExit _ => true
  | _ => false
  end.

(** What the Git pre-check can produce. *)
Definition preCheckEvent (e : Event) : bool :=
  match e with
  | GitCheckIsRepo | GitBranchLocal | GitBranch _ | GitCheckout _
  | CallCreateBranch _ | PromptProceedGit | PromptBranchName _
  | ConsoleWarn _ => true
  | _ => false
  end.

(** What the review loop can produce. *)
Definition reviewEvent (e : Event) : bool :=
  match e with
  | ConsoleLog _ | PromptConfirm _ _ | GitCheckout _ => true
  | _ => false
  end.

(** What the steps after the loops can produce. *)
Definition closingEvent (e : Event) : bool :=
  match e with
  | GitCheckout _ | CallStageFiles _ | GitAdd _
  | ConsoleError _ | ProcessExit _ => true
  | _ => false
  end.

(** What the apply loop can produce. *)
Definition applyEvent (e : Event) : bool :=
  match e with
  | CallApplyFileChange _ | CreateFile _ _ _ | WriteFile _ _ | DeleteFile _
  | ConsoleWarn _ | ConsoleError _ => true
  | _ => false
  end.

(** ** Control flow of an async function

    A computation reads and writes the options object, appends to the
    trace, and completes normally, by leaving the action ([return],
    [process.exit]), or by throwing an [Error] with a message. *)
Inductive Completion (A : Type) :=
| Normal (a : A)
| Halt (o : Outcome)
| Throw (message : string).
Arguments Normal {A} a.
Arguments Halt {A} o.
Arguments Throw {A} message.

Definition Prog (A : Type) : Type :=
  Options → list Event * Options * Completion A.

Definition prog_ret {A} (a : A) : Prog A := λ o, ([], o, Normal a).

Definition prog_bind {A B} (f : A → Prog B) (m : Prog A) : Prog B := λ o,
  match m o with
  | (ev, o1, Normal a) =>
      match f a o1 with
      | (ev', o2, c) => (ev ++ ev', o2, c)
      end
  | (ev, o1, Halt x) => (ev, o1, Halt x)
  | (ev, o1, Throw e) => (ev, o1, Throw e)
  end.

#[global] Instance Prog_ret : MRet Prog := @prog_ret.
#[global] Instance Prog_bind : MBind Prog := @prog_bind.

Definition emit (e : Event) : Prog unit := λ o, ([e], o, Normal tt).
Definition throw {A} (message : string) : Prog A := λ o, ([], o, Throw message).
Definition halt {A} (x : Outcome) : Prog A := λ o, ([], o, Halt x).
Definition options : Prog Options := λ o, ([], o, Normal o).
Definition update (f : Options → Options) : Prog unit := λ o, ([], f o, Normal tt).

(** [await promise]: the value of a resolved promise, the rejection of a
    rejected one thrown. *)
Definition settled {A} (r : Reply A) : Completion A :=
  match r with
  | Resolved a => Normal a
  | Rejected message => Throw message
  end.

Definition await {A} (r : Reply A) : Prog A := λ o, ([], o, settled r).

(** [try { m } catch (error) { handler(error.message) }] *)
Definition try_catch {A} (m : Prog A) (handler : string → Prog A) : Prog A := λ o,
  match m o with
  | (ev, o1, Throw e) =>
      match handler e o1 with
      | (ev', o2, c) => (ev ++ ev', o2, c)
      end
  | r => r
  end.

Definition when (b : bool) (m : Prog unit) : Prog unit :=
  if b then m else mret tt.

(** ** The default working-branch name *)

Module BranchName.
Import JsString.

(** The text is held as its UTF-8 bytes.  The regular expression has no
    [u] flag and works on UTF-16 code units; on the bytes the scan gives
    the same result, since a character outside ASCII is a sequence of
    bytes above 127, all outside the class, and the result of the
    replacement is ASCII, so that [substring] counts the same. *)

(** The character class [[a-z0-9]] of the regular expression. *)
Definition is_lower_alnum (c : ascii) : bool :=
  let n := nat_of_ascii c in
  ((97 <=? n) && (n <=? 122)) || ((48 <=? n) && (n <=? 57)).

Definition dash : ascii := "-"%char.

(** [s.replace(/[^a-z0-9]+/g, '-')], as the regular-expression engine runs
    it: scanning from the left, a character of the class is copied; a
    character outside it opens a match, the greedy [+] extends the match
    over every following character outside the class, and the match is
    replaced by one ['-'].  [in_match] tells whether the scan is inside
    a match whose ['-'] has already been written. *)
Fixpoint replace_from (in_match : bool) (s : string) : string :=
  match s with
  | EmptyString => EmptyString
  | String c s' =>
      if is_lower_alnum c then String c (replace_from false s')
      else if in_match then replace_from true s'
      else String dash (replace_from true s')
  end.

Definition replace_non_alnum_runs (s : string) : string :=
  replace_from false s.

(** [`feature/${prompt.toLowerCase().replace(/[^a-z0-9]+/g, '-')}`.substring(0, 50)] *)
Definition defaultBranchSuggestion `{Platform} (prompt : string) : string :=
  substring_to 50
    ("feature/" +:+ replace_non_alnum_runs (toLowerCase prompt)).

(** *** The wording of the specification

    The text cut into its maximal runs of characters that are all inside
    or all outside the class; every run outside the class becomes a single
    separator. *)
Fixpoint runs (s : string) : list (bool * string) :=
  match s with
  | EmptyString => []
  | String c s' =>
      let k := is_lower_alnum c in
      match runs s' with
      | (k', r) :: rest =>
          if Bool.eqb k k' then (k, String c r) :: rest
          else (k, String c EmptyString) :: (k', r) :: rest
      | [] => [(k, String c EmptyString)]
      end
  end.

Definition collapse_run (r : bool * string) : string :=
  if r.1 then r.2 else String dash EmptyString.

Definition collapse_runs (s : string) : string :=
  String.concat "" (map collapse_run (runs s)).

Fixpoint all_chars (P : ascii → bool) (s : string) : bool :=
  match s with
  | EmptyString => true
  | String c s' => P c && all_chars P s'
  end.

(** A run is not empty and its characters are all of the run's kind. *)
Definition well_formed_run (r : bool * string) : bool :=
  negb (String.eqb r.2 "")
  && all_chars (λ c, Bool.eqb (is_lower_alnum c) r.1) r.2.

(** Neighbouring runs are of different kinds: the runs are maximal. *)
Fixpoint alternating (rs : list (bool * string)) : bool :=
  match rs with
  | r1 :: ((r2 :: _) as rest) =>
      negb (Bool.eqb r1.1 r2.1) && alternating rest
  | _ => true
  end.

End BranchName.

(** ** file-operations/diffGenerator.ts *)

Module DiffGenerator.
Import JsString Diff.

Definition is_undefined {A} (o : option A) : bool :=
  match o with
  | None => true
  | Some _ => false
  end.

(** Truthiness of an optional flag. *)
Definition flag (o : option bool) : bool :=
  match o with
  | Some true => true
  | _ => false
  end.

(** The body of the [forEach]: the part's lines, each behind the prefix
    of the part's kind, in the colour of the kind. *)
Definition render_part `{Platform} (part : Change) : string :=
  let color :=
    if flag (added part) then chalk_green
    else if flag (removed part) then chalk_red
    else chalk_grey in
  let prefix :=
    if flag (added part) then "+ "
    else if flag (removed part) then "- "
    else "  " in
  color (join_lines (map (λ line, prefix +:+ line) (split_lines (value part)))).

Definition generateUnifiedDiff `{Platform}
    (originalContent newContent : string) : string :=
  let diff := diffLines originalContent newContent in
  let unchanged :=
    match diff with
    | [part] => is_undefined (added part) && is_undefined (removed part)
    | _ => false
    end in
  if unchanged then ""
  else foldl (λ diffString part, diffString +:+ render_part part) "" diff.

End DiffGenerator.

(** ** git-operations/gitManager.ts

    The console messages are recorded without their leading pictograph. *)

Module GitManager.
Import JsString.

Section WithWorld.
Context `{Platform} (W : World).

Definition isGitRepository (dirPath : string) : Prog bool :=
  try_catch
    (emit GitCheckIsRepo;; _ ← await (git_checkIsRepo W); mret true)
    (λ _, mret false).

Definition createBranch (repoPath branchName : string) : Prog unit :=
  emit (CallCreateBranch branchName);;
  try_catch
    (emit (GitBranch branchName);; await (git_branch W branchName);;
     emit (GitCheckout branchName);; await (git_checkout W branchName))
    (λ message,
       emit (ConsoleWarn ("Git: Could not create or checkout branch '"
                          +:+ branchName +:+ "': " +:+ message));;
       if includes "A branch named" message
          && includes "already exists" message
       then
         emit (ConsoleWarn ("Git: Branch '" +:+ branchName
                            +:+ "' already exists. Checking it out instead."));;
         emit (GitCheckout branchName);; await (git_checkout W branchName)
       else throw message).

Definition stageFiles (repoPath : string) (filePaths : list string) : Prog unit :=
  emit (CallStageFiles filePaths);;
  try_catch
    (let relativePaths := map (λ filePath, path_relative repoPath filePath) filePaths in
     emit (GitAdd relativePaths);; await (git_add W relativePaths))
    (λ message,
       emit (ConsoleError ("Git: Failed to stage files: " +:+ message));;
       throw message).

Definition getCurrentBranch (repoPath : string) : Prog (option string) :=
  try_catch
    (emit GitBranchLocal;; current ← await (git_branchLocal W); mret (Some current))
    (λ _, mret None).

End WithWorld.
End GitManager.

(** ** file-operations/fileApplier.ts *)

Module FileApplier.
Import JsString.

Section WithWorld.
Context `{Platform} (W : World).

(** [queued] is the position of [change] among the confirmed changes; it
    selects the backend's reply to the one remote call made for it. *)
Definition applyFileChange (projectRoot : string) (queued : nat)
    (change : ProposedFileChange) : Prog unit :=
  emit (CallApplyFileChange change);;
  let absoluteFilePath := path_resolve projectRoot (filePath change) in
  if String.eqb (action change) "add" then
    emit (CreateFile absoluteFilePath false (or_empty (newContent change)));;
    await (backend_mutation W queued)
  else if String.eqb (action change) "modify" then
    emit (WriteFile absoluteFilePath (or_empty (newContent change)));;
    await (backend_mutation W queued)
  else if String.eqb (action change) "delete" then
    emit (DeleteFile absoluteFilePath);;
    await (backend_mutation W queued)
  else
    emit (ConsoleWarn ("Unknown action type for change: "
                       +:+ action change +:+ ". Skipping.")).

End WithWorld.
End FileApplier.

(** ** The [generate <prompt>] action of the CLI entry point *)

Module Cli.
Import JsString BranchName DiffGenerator GitManager FileApplier.

Section WithWorld.
Context `{Platform} (W : World).

Definition getAuthenticatedBackendApi : Prog unit :=
  emit GetAuthToken;;
  authToken ← await (auth_getAuthToken W);
  if negb authToken then
    emit (ConsoleError
      "Error: You are not logged in. Please run `aicli login <provider>` first.");;
    emit (ProcessExit 1);;
    halt Failed
  else mret tt.

Definition allScanPathsOf (o : Options) : list string :=
  let dirs :=
    match scanDirs o with
    | Some (d :: ds) => [] ++ (d :: ds)
    | _ => []
    end in
  let both :=
    match scanFiles o with
    | Some (f :: fs) => dirs ++ (f :: fs)
    | _ => dirs
    end in
  match both with
  | [] => ["."]
  | _ => both
  end.

(** The Git pre-check: yields [isGitRepo] and [originalBranch]. *)
Definition gitPreCheck (prompt projectRoot : string)
    (autoConfirm skipGit : bool) (customBranchName : option string)
    : Prog (bool * option string) :=
  if negb skipGit then
    isGitRepo ← isGitRepository W projectRoot;
    if isGitRepo : bool then
      originalBranch ← getCurrentBranch W projectRoot;
      (if negb autoConfirm then
         let suggestion := defaultBranchSuggestion prompt in
         emit PromptProceedGit;;
         if negb (inquirer_proceedGit W) then update (set_noGit true)
         else
           when (negb (truthy customBranchName))
             (emit (PromptBranchName suggestion);;
              update (set_branch (inquirer_branchNameInput W suggestion)));;
           o ← options;
           createBranch W projectRoot (default "" (branch o))
       else
         o ← options;
         when (negb (noGit o) && negb (truthy customBranchName))
           (update (set_branch (defaultBranchSuggestion prompt)));;
         o ← options;
         when (negb (noGit o) && truthy (branch o))
           (createBranch W projectRoot (default "" (branch o))));;
      mret (true, originalBranch)
    else
      update (set_noGit true);;
      mret (false, None)
  else mret (false, None).

(** [new Map()] filled by the [forEach] over the scanned files. *)
Definition originalFileContentsOf (scannedFiles : list ScannedFile.t)
    : gmap string string :=
  foldl (λ m file, <[ScannedFile.filePath file := ScannedFile.content file]> m)
        ∅ scannedFiles.

(** The diff shown for a [modify] change. *)
Definition diffOf (originalFileContents : gmap string string)
    (change : ProposedFileChange) : string :=
  let originalContent := or_empty (originalFileContents !! filePath change) in
  generateUnifiedDiff originalContent (or_empty (newContent change)).

(** [git checkout originalBranch] when a working branch is in use. *)
Definition revertBranch (isGitRepo : bool) (originalBranch : option string)
    : Prog unit :=
  o ← options;
  when (isGitRepo && negb (noGit o) && truthy (branch o) && truthy originalBranch)
    (emit (GitCheckout (default "" originalBranch));;
     await (git_checkout W (default "" originalBranch))).

(** The review loop, from [position] on; [continue] and the end of the
    body go on with the rest of the batch. *)
Fixpoint reviewLoop (autoConfirm isGitRepo : bool)
    (originalBranch : option string)
    (originalFileContents : gmap string string)
    (position : nat) (batch : list ProposedFileChange)
    (changesToApply : list ProposedFileChange)
    (filesModifiedOrAdded : list string)
    : Prog (list ProposedFileChange * list string) :=
  match batch with
  | [] => mret (changesToApply, filesModifiedOrAdded)
  | change :: rest =>
      let next := reviewLoop autoConfirm isGitRepo originalBranch
                    originalFileContents (S position) rest in
      let review : Prog (list ProposedFileChange * list string) :=
        if autoConfirm then
          next (changesToApply ++ [change])
               (filesModifiedOrAdded ++ [filePath change])
        else
          emit (PromptConfirm position change);;
          match inquirer_confirm W position with
          | Yes =>
              next (changesToApply ++ [change])
                   (filesModifiedOrAdded ++ [filePath change])
          | All =>
              update (set_yes true);;
              next (changesToApply ++ [change])
                   (filesModifiedOrAdded ++ [filePath change])
          | Abort =>
              revertBranch isGitRepo originalBranch;;
              halt Aborted
          | No => next changesToApply filesModifiedOrAdded
          end in
      if String.eqb (action change) "modify" then
        let diff := diffOf originalFileContents change in
        if truthy_string diff then emit (ConsoleLog diff);; review
        else next changesToApply filesModifiedOrAdded
      else review
  end.

(** The apply loop over the confirmed changes, from queue position
    [queued] on. *)
Fixpoint applyLoop (projectRoot : string) (queued : nat)
    (changesToApply : list ProposedFileChange) : Prog unit :=
  match changesToApply with
  | [] => mret tt
  | change :: rest =>
      try_catch
        (applyFileChange W projectRoot queued change)
        (λ message,
           emit (ConsoleError ("Failed to apply change for "
                               +:+ filePath change +:+ ": " +:+ message)));;
      applyLoop projectRoot (S queued) rest
  end.

(** The body of the [try] block. *)
Definition generateBody (prompt projectRoot : string)
    (allScanPaths : list string)
    (autoConfirm skipGit : bool) (customBranchName : option string)
    : Prog unit :=
  getAuthenticatedBackendApi;;
  '(isGitRepo, originalBranch) ←
    gitPreCheck prompt projectRoot autoConfirm skipGit customBranchName;
  emit (ScanProject allScanPaths projectRoot);;
  scannedFiles ← await (backend_scanProject W);
  let originalFileContents := originalFileContentsOf scannedFiles in
  emit (CallLLM prompt);;
  llmOutput ← await (backend_callLLM W);
  match changes llmOutput with
  | [] => halt Done
  | _ =>
      '(changesToApply, filesModifiedOrAdded) ←
        reviewLoop autoConfirm isGitRepo originalBranch originalFileContents
          0 (changes llmOutput) [] [];
      match changesToApply with
      | [] => revertBranch isGitRepo originalBranch;; halt Done
      | _ =>
          applyLoop projectRoot 0 changesToApply;;
          o ← options;
          when (isGitRepo && negb (noGit o))
            (stageFiles W projectRoot filesModifiedOrAdded)
      end
  end.

Definition generateAction (prompt : string) : Prog unit := λ o,
  let projectRoot := path_resolve (process_cwd W) (path o) in
  let allScanPaths := allScanPathsOf o in
  let autoConfirm := yes o in
  let skipGit := noGit o in
  let customBranchName := branch o in
  try_catch
    (generateBody prompt projectRoot allScanPaths
       autoConfirm skipGit customBranchName)
    (λ message,
       emit (ConsoleError ("Error during generation: " +:+ message));;
       emit (ProcessExit 1);;
       halt Failed)
    o.

End WithWorld.

(** One invocation of the command. *)
Record Run := {
  trace : list Event;
  finalOptions : Options;
  outcome : Outcome;
}.

Definition generate `{Platform} (W : World) (prompt : string) (o : Options) : Run :=
  match generateAction W prompt o with
  | (ev, o', Halt x) => {| trace := ev; finalOptions := o'; outcome := x |}
  | (ev, o', _) => {| trace := ev; finalOptions := o'; outcome := Done |}
  end.

End Cli.

(** ** A platform and worlds to evaluate runs on *)

Module Sample.
Import JsString Diff Cli.

(** [toLowerCase] on ASCII text: only [A-Z] change. *)
Definition ascii_lower (c : ascii) : ascii :=
  let n := nat_of_ascii c in
  if (65 <=? n) && (n <=? 90) then ascii_of_nat (n + 32) else c.

Fixpoint ascii_toLowerCase (s : string) : string :=
  match s with
  | EmptyString => EmptyString
  | String c s' => String (ascii_lower c) (ascii_toLowerCase s')
  end.

(** A coarse diff with the shape of the package's results: equal texts
    are one common part, an empty side leaves one addition or one removal,
    anything else is reported as the removal of the old text followed by
    the addition of the new one. *)
Definition coarseDiffLines (old new : string) : list Change :=
  if String.eqb old new then [common new]
  else if String.eqb old "" then [addition new]
  else if String.eqb new "" then [removal old]
  else [removal old; addition new].

(** Paths joined without normalisation (["."] alone is resolved away), no
    colour support. *)
#[export] Instance platform : Platform := {|
  toLowerCase := ascii_toLowerCase;
  path_resolve := λ from to,
    if String.eqb to "." then from
    else if String.prefix "/" to then to
    else from +:+ "/" +:+ to;
  path_relative := λ from to,
    if String.prefix (from +:+ "/") to
    then String.substring (String.length from + 1) (String.length to) to
    else to;
  diffLines := coarseDiffLines;
  chalk_green := λ s, s;
  chalk_red := λ s, s;
  chalk_grey := λ s, s;
|}.

Definition add (p c : string) : ProposedFileChange :=
  {| filePath := p; action := "add"; newContent := Some c; reason := None |}.

Definition modify (p c : string) : ProposedFileChange :=
  {| filePath := p; action := "modify"; newContent := Some c; reason := None |}.

Definition scanned (p c : string) : ScannedFile.t :=
  {| ScannedFile.filePath := p; ScannedFile.relativePath := p;
     ScannedFile.content := c |}.

Definition llm (cs : list ProposedFileChange) : Reply LLMOutput :=
  Resolved {| changes := cs; summary := "done"; thoughtProcess := None |}.

(** A logged-in user in a Git repository on [main]; every call succeeds
    and the user answers [yes] unless a field is overridden. *)
Definition world (files : list ScannedFile.t) (cs : list ProposedFileChange)
    (answers : nat → Confirm) : World := {|
  process_cwd := "/repo";
  auth_getAuthToken := Resolved true;
  git_checkIsRepo := Resolved true;
  git_branchLocal := Resolved "main";
  git_branch := λ _, Resolved tt;
  git_checkout := λ _, Resolved tt;
  git_add := λ _, Resolved tt;
  inquirer_proceedGit := true;
  inquirer_branchNameInput := λ suggestion, suggestion;
  inquirer_confirm := answers;
  backend_scanProject := Resolved files;
  backend_callLLM := llm cs;
  backend_mutation := λ _, Resolved tt;
|}.

Definition with_scan (r : Reply (list ScannedFile.t)) (W : World) : World := {|
  process_cwd := process_cwd W;
  auth_getAuthToken := auth_getAuthToken W;
  git_checkIsRepo := git_checkIsRepo W;
  git_branchLocal := git_branchLocal W;
  git_branch := git_branch W;
  git_checkout := git_checkout W;
  git_add := git_add W;
  inquirer_proceedGit := inquirer_proceedGit W;
  inquirer_branchNameInput := inquirer_branchNameInput W;
  inquirer_confirm := inquirer_confirm W;
  backend_scanProject := r;
  backend_callLLM := backend_callLLM W;
  backend_mutation := backend_mutation W;
|}.

Definition with_checkout (f : string → Reply unit) (W : World) : World := {|
  process_cwd := process_cwd W;
  auth_getAuthToken := auth_getAuthToken W;
  git_checkIsRepo := git_checkIsRepo W;
  git_branchLocal := git_branchLocal W;
  git_branch := git_branch W;
  git_checkout := f;
  git_add := git_add W;
  inquirer_proceedGit := inquirer_proceedGit W;
  inquirer_branchNameInput := inquirer_branchNameInput W;
  inquirer_confirm := inquirer_confirm W;
  backend_scanProject := backend_scanProject W;
  backend_callLLM := backend_callLLM W;
  backend_mutation := backend_mutation W;
|}.

Definition with_mutation (f : nat → Reply unit) (W : World) : World := {|
  process_cwd := process_cwd W;
  auth_getAuthToken := auth_getAuthToken W;
  git_checkIsRepo := git_checkIsRepo W;
  git_branchLocal := git_branchLocal W;
  git_branch := git_branch W;
  git_checkout := git_checkout W;
  git_add := git_add W;
  inquirer_proceedGit := inquirer_proceedGit W;
  inquirer_branchNameInput := inquirer_branchNameInput W;
  inquirer_confirm := inquirer_confirm W;
  backend_scanProject := backend_scanProject W;
  backend_callLLM := backend_callLLM W;
  backend_mutation := f;
|}.

Definition a_ts : ProposedFileChange := add "/repo/a.ts" "console.log(1)".
Definition b_ts : ProposedFileChange := add "/repo/b.ts" "console.log(2)".

(** [git checkout main] fails, every other checkout succeeds. *)
Definition checkout_main_fails (name : string) : Reply unit :=
  if String.eqb name "main"
  then Rejected "error: Your local changes would be overwritten by checkout"
  else Resolved tt.

(** The user's answers, by position; [no] past the end of the list. *)
Definition answers (l : list Confirm) (position : nat) : Confirm :=
  default No (l !! position).

(** [generate <prompt>] with the defaults of the command line. *)
Definition cli (yes_flag noGit_flag : bool) (name : option string) : Options := {|
  path := "."; scanDirs := None; scanFiles := None;
  yes := yes_flag; noGit := noGit_flag; branch := name;
|}.

End Sample.

(** ** Vocabulary of the statements *)

Import JsString BranchName DiffGenerator GitManager FileApplier Cli.

Section Vocabulary.
Context `{Platform} (W : World).

Definition knownAction (a : string) : bool :=
  String.eqb a "add" || String.eqb a "modify" || String.eqb a "delete".

(** The one remote request a change of a known action is turned into. *)
Definition requestOf (projectRoot : string) (change : ProposedFileChange) : Event :=
  let absoluteFilePath := path_resolve projectRoot (filePath change) in
  if String.eqb (action change) "add" then
    CreateFile absoluteFilePath false (default "" (newContent change))
  else if String.eqb (action change) "modify" then
    WriteFile absoluteFilePath (default "" (newContent change))
  else DeleteFile absoluteFilePath.

(** What one turn of the apply loop leaves in the trace. *)
Definition attempt (projectRoot : string) (queued : nat)
    (change : ProposedFileChange) : list Event :=
  if knownAction (action change) then
    [CallApplyFileChange change; requestOf projectRoot change]
    ++ match backend_mutation W queued with
       | Resolved _ => []
       | Rejected message =>
           [ConsoleError ("Failed to apply change for "
                          +:+ filePath change +:+ ": " +:+ message)]
       end
  else
    [CallApplyFileChange change;
     ConsoleWarn ("Unknown action type for change: "
                  +:+ action change +:+ ". Skipping.")].

(** [originalBranch] as [getCurrentBranch] returns it. *)
Definition currentBranchOf : option string :=
  match git_branchLocal W with
  | Resolved current => Some current
  | Rejected _ => None
  end.

(** A [modify] change whose diff is empty: the review loop [continue]s
    past it. *)
Definition noEffectiveChange (originalFileContents : gmap string string)
    (change : ProposedFileChange) : bool :=
  String.eqb (action change) "modify"
  && negb (truthy_string (diffOf originalFileContents change)).

(** The diff printed before a change is decided. *)
Definition shownFor (originalFileContents : gmap string string)
    (change : ProposedFileChange) : list Event :=
  if String.eqb (action change) "modify"
  then [ConsoleLog (diffOf originalFileContents change)]
  else [].

(** A run continued after the events [evs]. *)
Definition after {A} (evs : list Event)
    (r : list Event * Options * Completion A) : list Event * Options * Completion A :=
  match r with
  | (ev, o, c) => (evs ++ ev, o, c)
  end.

(** The paths of the queued changes whose remote mutation call succeeded,
    in order. *)
Definition appliedPaths (changesToApply : list ProposedFileChange) : list string :=
  omap (λ x, x)
    (imap (λ j change,
             match backend_mutation W j with
             | Resolved _ =>
                 if knownAction (action change) then Some (filePath change)
                 else None
             | Rejected _ => None
             end) changesToApply).

(** What holds of the review loop run from [position] over [batch] with
    the queue [changesToApply] and the paths [filesModifiedOrAdded]. *)
Definition reviewed (autoConfirm isGitRepo : bool)
    (originalBranch : option string)
    (originalFileContents : gmap string string)
    (position : nat) (batch : list ProposedFileChange)
    (changesToApply : list ProposedFileChange)
    (filesModifiedOrAdded : list string) (o : Options)
    (r : list Event * Options * Completion (list ProposedFileChange * list string))
    : Prop :=
  match r with
  | (ev, o2, c) =>
      forallb reviewEvent ev = true
      ∧ noGit o2 = noGit o ∧ branch o2 = branch o
      ∧ (∀ i ch, In (PromptConfirm i ch) ev →
           autoConfirm = false ∧ position ≤ i
           ∧ batch !! (i - position) = Some ch
           ∧ noEffectiveChange originalFileContents ch = false)
      ∧ match c with
        | Normal (changesToApply', filesModifiedOrAdded') =>
            (∃ kept,
               changesToApply' = changesToApply ++ kept
               ∧ filesModifiedOrAdded' = filesModifiedOrAdded ++ map filePath kept
               ∧ Forall (λ ch, noEffectiveChange originalFileContents ch = false) kept)
            ∧ ∀ i ch, In (PromptConfirm i ch) ev → inquirer_confirm W i ≠ Abort
        | _ =>
            ∃ pre i ch evr oi,
              ev = pre ++ PromptConfirm i ch :: evr
              ∧ inquirer_confirm W i = Abort
              ∧ (∀ j ch', In (PromptConfirm j ch') pre →
                   inquirer_confirm W j ≠ Abort)
              ∧ noGit oi = noGit o ∧ branch oi = branch o
              ∧ (revertBranch W isGitRepo originalBranch ≫= λ _, halt Aborted) oi
                = (evr, o2, c)
        end
  end.

(** What [Diff.diffLines] reports for one text, as far as the command
    depends on it.

    The text [s] compared with itself comes back in the shape the check of
    [generateUnifiedDiff] recognises: no part at all, or a single part
    whose [added] and [removed] are both [undefined].  Releases of the
    package up to 5.x report an unchanged text so; later releases set both
    fields to [false] on the part of a text that is not empty. *)
Definition reportedUnchanged (s : string) : Prop :=
  diffLines s s = []
  ∨ ∃ part, diffLines s s = [part]
            ∧ Diff.added part = None ∧ Diff.removed part = None.

(** The text [s] compared against the empty text comes back as a single
    part that holds [s] and whose [added] is [true]; [removed] may be
    [undefined] or [false]. *)
Definition reportedAdded (s : string) : Prop :=
  ∃ part, diffLines "" s = [part]
          ∧ Diff.value part = s ∧ flag (Diff.added part) = true.

End Vocabulary.

(** ** llm/jsonRepair.ts *)

Module JsonRepair.

Definition backslash : ascii := ascii_of_nat 92.

(** The characters of the lookahead class: the double quote, the
    backslash, the slash and [b f n r t u]. *)
Definition escape_char (c : ascii) : bool :=
  let n := nat_of_ascii c in
  (n =? 34) || (n =? 92) || (n =? 47) || (n =? 98) || (n =? 102)
  || (n =? 110) || (n =? 114) || (n =? 116) || (n =? 117).

(** The regular expression, a backslash with a negative lookahead for the
    class, matches at [c] followed by [rest]: a backslash whose next
    character, if any, is outside the class.  The lookahead consumes
    nothing. *)
Definition lone_backslash (c : ascii) (rest : string) : bool :=
  Ascii.eqb c backslash
  && match rest with
     | String d _ => negb (escape_char d)
     | EmptyString => true
     end.

(** The global [replace] of the regular expression by two backslashes:
    every match, one character long, becomes two backslashes; the scan
    goes on right after it. *)
Fixpoint repairJsonBadEscapes (jsonString : string) : string :=
  match jsonString with
  | EmptyString => EmptyString
  | String c rest =>
      if lone_backslash c rest
      then String backslash (String backslash (repairJsonBadEscapes rest))
      else String c (repairJsonBadEscapes rest)
  end.

(** The number of matches of the regular expression in a text. *)
Fixpoint lone_backslashes (s : string) : nat :=
  match s with
  | EmptyString => 0
  | String c rest =>
      (if lone_backslash c rest then 1 else 0) + lone_backslashes rest
  end.

(** The text without its backslashes. *)
Fixpoint without_backslashes (s : string) : string :=
  match s with
  | EmptyString => EmptyString
  | String c rest =>
      if Ascii.eqb c backslash then without_backslashes rest
      else String c (without_backslashes rest)
  end.

End JsonRepair.

(** ** The JSON tool ([preClean] of cli/json-tool.ts and of JsonService) *)

Module JsonTool.

Definition NUL : ascii := ascii_of_nat 0.

(** [text.replace(/\u0000/g, '')] *)
Fixpoint preClean (text : string) : string :=
  match text with
  | EmptyString => EmptyString
  | String c rest =>
      if Ascii.eqb c NUL then preClean rest else String c (preClean rest)
  end.

Fixpoint occurs (c : ascii) (s : string) : bool :=
  match s with
  | EmptyString => false
  | String d rest => Ascii.eqb d c || occurs c rest
  end.

End JsonTool.

(** ** Further worlds *)

Module Worlds.

Definition with_auth (r : Reply bool) (W : World) : World := {|
  process_cwd := process_cwd W;
  auth_getAuthToken := r;
  git_checkIsRepo := git_checkIsRepo W;
  git_branchLocal := git_branchLocal W;
  git_branch := git_branch W;
  git_checkout := git_checkout W;
  git_add := git_add W;
  inquirer_proceedGit := inquirer_proceedGit W;
  inquirer_branchNameInput := inquirer_branchNameInput W;
  inquirer_confirm := inquirer_confirm W;
  backend_scanProject := backend_scanProject W;
  backend_callLLM := backend_callLLM W;
  backend_mutation := backend_mutation W;
|}.

Definition with_checkIsRepo (r : Reply bool) (W : World) : World := {|
  process_cwd := process_cwd W;
  auth_getAuthToken := auth_getAuthToken W;
  git_checkIsRepo := r;
  git_branchLocal := git_branchLocal W;
  git_branch := git_branch W;
  git_checkout := git_checkout W;
  git_add := git_add W;
  inquirer_proceedGit := inquirer_proceedGit W;
  inquirer_branchNameInput := inquirer_branchNameInput W;
  inquirer_confirm := inquirer_confirm W;
  backend_scanProject := backend_scanProject W;
  backend_callLLM := backend_callLLM W;
  backend_mutation := backend_mutation W;
|}.

Definition with_branch (f : string → Reply unit) (W : World) : World := {|
  process_cwd := process_cwd W;
  auth_getAuthToken := auth_getAuthToken W;
  git_checkIsRepo := git_checkIsRepo W;
  git_branchLocal := git_branchLocal W;
  git_branch := f;
  git_checkout := git_checkout W;
  git_add := git_add W;
  inquirer_proceedGit := inquirer_proceedGit W;
  inquirer_branchNameInput := inquirer_branchNameInput W;
  inquirer_confirm := inquirer_confirm W;
  backend_scanProject := backend_scanProject W;
  backend_callLLM := backend_callLLM W;
  backend_mutation := backend_mutation W;
|}.

Definition with_proceedGit (answer : bool) (W : World) : World := {|
  process_cwd := process_cwd W;
  auth_getAuthToken := auth_getAuthToken W;
  git_checkIsRepo := git_checkIsRepo W;
  git_branchLocal := git_branchLocal W;
  git_branch := git_branch W;
  git_checkout := git_checkout W;
  git_add := git_add W;
  inquirer_proceedGit := answer;
  inquirer_branchNameInput := inquirer_branchNameInput W;
  inquirer_confirm := inquirer_confirm W;
  backend_scanProject := backend_scanProject W;
  backend_callLLM := backend_callLLM W;
  backend_mutation := backend_mutation W;
|}.

(** What [Sample.llm] resolves to. *)
Definition proposal (cs : list ProposedFileChange) : LLMOutput :=
  {| changes := cs; summary := "done"; thoughtProcess := None |}.

End Worlds.

(** ** The [diff] package after 5.x

    A platform like [Sample.platform] whose [diffLines] fills in [added]
    and [removed] on every part, as the later releases of the package do:
    [false] where the earlier ones left the field [undefined]. *)

Module LaterDiff.
Import Diff.

Definition part (s : string) (isAdded isRemoved : bool) : Change :=
  {| value := s; added := Some isAdded; removed := Some isRemoved |}.

Definition laterDiffLines (old new : string) : list Change :=
  if String.eqb old new then
    if String.eqb new "" then [] else [part new false false]
  else if String.eqb old "" then [part new true false]
  else if String.eqb new "" then [part old false true]
  else [part old false true; part new true false].

Definition platform : Platform := {|
  toLowerCase := toLowerCase (Platform := Sample.platform);
  path_resolve := path_resolve (Platform := Sample.platform);
  path_relative := path_relative (Platform := Sample.platform);
  diffLines := laterDiffLines;
  chalk_green := λ s, s;
  chalk_red := λ s, s;
  chalk_grey := λ s, s;
|}.

End LaterDiff.

(** ** The command line of [generate] (part_006, lines 231-258) *)

Module CommandLine.

(** What the user gives after [generate <prompt>]. *)
Record t := {
  pathOption : option string;
  scanDirsOption : option (list string);
  scanFilesOption : option (list string);
  yesFlag : bool;
  noGitFlag : bool;
  branchOption : option string;
}.

(** The options object commander builds from it.  [--path] defaults to
    ["."] and [--yes] to [false].  The option is declared as [--no-git]:
    commander stores a negated option under the key of the positive one,
    [git], and sets no key [noGit].  The action reads [options.noGit]
    (line 285), which is [undefined] whether or not the flag was given:
    falsy. *)
Definition optionsOf (c : t) : Options := {|
  path := default "." (pathOption c);
  scanDirs := scanDirsOption c;
  scanFiles := scanFilesOption c;
  yes := yesFlag c;
  noGit := false;
  branch := branchOption c;
|}.

End CommandLine.

(** ** Vocabulary of the further properties *)

Section RunVocabulary.
Context `{Platform} (W : World).

(** The end of a run in the catch-all handler, after the events [ev]. *)
Definition failed {A} (ev : list Event) (o : Options) (message : string)
    : list Event * Options * Completion A :=
  (ev ++ [ConsoleError ("Error during generation: " +:+ message);
          ProcessExit 1],
   o, Halt Failed).

(** What follows the review loop, whose run was [r], after the events
    [pre]. *)
Definition afterReview (root : string) (pre : list Event)
    (g : bool) (ob : option string)
    (r : list Event * Options
         * Completion (list ProposedFileChange * list string))
    : list Event * Options * Completion unit :=
  match r with
  | (rev, o2, Throw message) => failed (pre ++ rev) o2 message
  | (rev, o2, Halt x) => (pre ++ rev, o2, Halt x)
  | (rev, o2, Normal ([], _)) =>
      match revertBranch W g ob o2 with
      | (evr, o3, Throw message) => failed (pre ++ rev ++ evr) o3 message
      | (evr, o3, Halt x) => (pre ++ rev ++ evr, o3, Halt x)
      | (evr, o3, Normal _) => (pre ++ rev ++ evr, o3, Halt Done)
      end
  | (rev, o2, Normal (cta, fma)) =>
      let attempts := concat (imap (λ j c, attempt W root j c) cta) in
      if g && negb (noGit o2) then
        match stageFiles W root fma o2 with
        | (st, o3, Throw message) =>
            failed (pre ++ rev ++ attempts ++ st) o3 message
        | (st, o3, c) => (pre ++ rev ++ attempts ++ st, o3, c)
        end
      else (pre ++ rev ++ attempts, o2, Normal tt)
  end.

(** The action of [generate], phase by phase. *)
Definition generatePhases (prompt : string) (o : Options)
    : list Event * Options * Completion unit :=
  let root := path_resolve (process_cwd W) (path o) in
  match auth_getAuthToken W with
  | Rejected message => failed [GetAuthToken] o message
  | Resolved false =>
      ([GetAuthToken;
        ConsoleError
          "Error: You are not logged in. Please run `aicli login <provider>` first.";
        ProcessExit 1], o, Halt Failed)
  | Resolved true =>
      match gitPreCheck W prompt root (yes o) (noGit o) (branch o) o with
      | (pre0, o1, Throw message) => failed (GetAuthToken :: pre0) o1 message
      | (pre0, o1, Halt x) => (GetAuthToken :: pre0, o1, Halt x)
      | (pre0, o1, Normal (g, ob)) =>
          let scan := ScanProject (allScanPathsOf o) root in
          match backend_scanProject W with
          | Rejected message =>
              failed (GetAuthToken :: pre0 ++ [scan]) o1 message
          | Resolved files =>
              match backend_callLLM W with
              | Rejected message =>
                  failed (GetAuthToken :: pre0 ++ [scan; CallLLM prompt])
                    o1 message
              | Resolved llm =>
                  match changes llm with
                  | [] =>
                      (GetAuthToken :: pre0 ++ [scan; CallLLM prompt],
                       o1, Halt Done)
                  | _ =>
                      afterReview root
                        (GetAuthToken :: pre0 ++ [scan; CallLLM prompt]) g ob
                        (reviewLoop W (yes o) g ob
                           (originalFileContentsOf files) 0 (changes llm)
                           [] [] o1)
                  end
              end
          end
      end
  end.

(** The changes of [batch], from [position] on, that are not empty
    [modify]s and that [keep] selects by position. *)
Fixpoint selected (originalFileContents : gmap string string)
    (keep : nat → bool) (position : nat)
    (batch : list ProposedFileChange) : list (nat * ProposedFileChange) :=
  match batch with
  | [] => []
  | change :: rest =>
      (if negb (noEffectiveChange originalFileContents change) && keep position
       then [(position, change)] else [])
      ++ selected originalFileContents keep (S position) rest
  end.

(** The user's answer applies the change: [yes] or [all]. *)
Definition accepts (position : nat) : bool :=
  match inquirer_confirm W position with
  | Yes | All => true
  | _ => false
  end.

(** The decision prompts of a trace, in order. *)
Definition promptOf (e : Event) : option (nat * ProposedFileChange) :=
  match e with
  | PromptConfirm position change => Some (position, change)
  | _ => None
  end.

Definition prompts (tr : list Event) : list (nat * ProposedFileChange) :=
  omap promptOf tr.

(** What the review loop shows and asks. *)
Definition askEvent (e : Event) : bool :=
  match e with
  | ConsoleLog _ | PromptConfirm _ _ => true
  | _ => false
  end.

(** The name of the working branch: [--branch] when given, else the
    derived default with [--yes], else what the user enters at the prompt
    that suggests the derived default. *)
Definition workingBranchName (prompt : string) (o : Options) : string :=
  if truthy (branch o) then default "" (branch o)
  else if yes o then defaultBranchSuggestion prompt
  else inquirer_branchNameInput W (defaultBranchSuggestion prompt).

(** Anything but a line of [console.error]. *)
Definition notErrorLine (e : Event) : bool :=
  match e with
  | ConsoleError _ => false
  | _ => true
  end.

(** Any prompt of the command. *)
Definition promptEvent (e : Event) : bool :=
  match e with
  | PromptProceedGit | PromptBranchName _ | PromptConfirm _ _ => true
  | _ => false
  end.

(** A call into Git, direct or through gitManager. *)
Definition gitEvent (e : Event) : bool :=
  match e with
  | GitCheckIsRepo | GitBranchLocal | GitBranch _ | GitCheckout _ | GitAdd _
  | CallCreateBranch _ | CallStageFiles _ | PromptProceedGit
  | PromptBranchName _ => true
  | _ => false
  end.

End RunVocabulary.

(** * Properties *)

(** ** Strings *)

Lemma or_empty_default o : or_empty o = default "" o.
Proof.
  destruct o as [s|]; simpl; [|done].
  unfold truthy_string. destruct (String.eqb_spec s ""); simpl; congruence.
Qed.

Lemma truthy_string_spec s : truthy_string s = true ↔ s ≠ "".
Proof.
  unfold truthy_string. destruct (String.eqb_spec s ""); simpl; split; congruence.
Qed.

Lemma truthy_Some s : s ≠ "" → truthy (Some s) = true.
Proof. intros. by apply truthy_string_spec. Qed.

Lemma substring_to_length n s : String.length (substring_to n s) ≤ n.
Proof.
  unfold substring_to. revert s.
  induction n as [|n IH]; intros [|c s]; simpl; try lia.
  specialize (IH s). lia.
Qed.

(** ** The branch name *)

Section BranchNameFacts.

Lemma append_cons c s t : String c s +:+ t = String c (s +:+ t).
Proof. reflexivity. Qed.

Lemma append_empty_r s : s +:+ "" = s.
Proof. induction s as [|c s IH]; [done|]. by rewrite append_cons, IH. Qed.

Lemma concat_nil_cons s ss : String.concat "" (s :: ss) = s +:+ String.concat "" ss.
Proof. destruct ss as [|s' ss]; simpl; [|done]. by rewrite append_empty_r. Qed.

(** Cutting into runs loses nothing. *)
Lemma runs_concat s : String.concat "" (map snd (runs s)) = s.
Proof.
  induction s as [|c s IH]; [done|].
  cbn [runs]. destruct (runs s) as [|[k' r] rest].
  - simpl in *. by subst.
  - destruct (Bool.eqb _ k'); rewrite <- IH; cbn [map snd];
      rewrite !concat_nil_cons; done.
Qed.

Lemma runs_well_formed s : forallb well_formed_run (runs s) = true.
Proof.
  induction s as [|c s IH]; [done|].
  cbn [runs]. destruct (runs s) as [|[k' r] rest].
  - simpl. unfold well_formed_run. simpl. by rewrite Bool.eqb_reflx.
  - cbn [forallb] in IH. apply andb_prop in IH as [Hr Hrest].
    destruct (Bool.eqb _ k') eqn:E.
    + apply Bool.eqb_prop in E. cbn [forallb]. rewrite Hrest, andb_true_r.
      unfold well_formed_run in *. cbn [fst snd] in *. cbn [all_chars String.eqb].
      apply andb_prop in Hr as [_ Hr]. rewrite E at 2. rewrite <- E, Bool.eqb_reflx.
      simpl. by rewrite E.
    + cbn [forallb]. rewrite Hr, Hrest.
      unfold well_formed_run. simpl. by rewrite Bool.eqb_reflx.
Qed.

Lemma alternating_cons r1 r2 rest :
  alternating (r1 :: r2 :: rest)
  = negb (Bool.eqb r1.1 r2.1) && alternating (r2 :: rest).
Proof. reflexivity. Qed.

Lemma alternating_head k r1 r2 rest :
  alternating ((k, r1) :: rest) = alternating ((k, r2) :: rest).
Proof. by destruct rest. Qed.

Lemma runs_alternating s : alternating (runs s) = true.
Proof.
  induction s as [|c s IH]; [done|].
  cbn [runs]. destruct (runs s) as [|[k' r] rest]; [done|].
  destruct (Bool.eqb _ k') eqn:E.
  - apply Bool.eqb_prop in E. rewrite E.
    by rewrite (alternating_head k' _ r).
  - rewrite alternating_cons. cbn [fst]. by rewrite E, IH.
Qed.

(** The scan of the regular expression agrees with the run-by-run
    reading, whether or not it starts inside a match. *)
Lemma replace_from_runs b s :
  replace_from b s =
    match runs s with
    | (false, _) :: rest =>
        if b then String.concat "" (map collapse_run rest)
        else String.concat "" (map collapse_run (runs s))
    | _ => String.concat "" (map collapse_run (runs s))
    end.
Proof.
  revert b. induction s as [|c s IH]; intros b; [done|].
  cbn [runs replace_from].
  destruct (is_lower_alnum c) eqn:Ec.
  - rewrite (IH false). destruct (runs s) as [|[[] r] rest]; cbn [Bool.eqb];
      cbn [map]; rewrite ?concat_nil_cons; done.
  - rewrite (IH true). destruct b.
    + destruct (runs s) as [|[[] r] rest]; cbn [Bool.eqb]; done.
    + destruct (runs s) as [|[[] r] rest]; cbn [Bool.eqb]; cbn [map];
        rewrite ?concat_nil_cons; done.
Qed.

Lemma replace_non_alnum_runs_collapse s :
  replace_non_alnum_runs s = collapse_runs s.
Proof.
  unfold replace_non_alnum_runs, collapse_runs. rewrite replace_from_runs.
  by destruct (runs s) as [|[[] r] rest].
Qed.

End BranchNameFacts.

(** ** Running computations *)

(** Two traces that differ in the bracketing of their concatenation. *)
Ltac same_trace :=
  repeat first [rewrite <- !app_assoc | rewrite !app_nil_r | progress cbn [app]];
  done.


Lemma run_bind {A B} (m : Prog A) (f : A → Prog B) o :
  (m ≫= f) o =
    match m o with
    | (ev, o1, Normal a) =>
        match f a o1 with
        | (ev', o2, c) => (ev ++ ev', o2, c)
        end
    | (ev, o1, Halt x) => (ev, o1, Halt x)
    | (ev, o1, Throw e) => (ev, o1, Throw e)
    end.
Proof. reflexivity. Qed.

Lemma run_emit {B} e (k : Prog B) o :
  (emit e ≫= λ _, k) o =
    match k o with
    | (ev, o', c) => (e :: ev, o', c)
    end.
Proof. reflexivity. Qed.

Lemma applyCalls_app tr1 tr2 :
  applyCalls (tr1 ++ tr2) = applyCalls tr1 ++ applyCalls tr2.
Proof. apply omap_app. Qed.

Lemma applyCalls_closing tr :
  forallb closingEvent tr = true → applyCalls tr = [].
Proof.
  induction tr as [|e tr IH]; [done|]. cbn [forallb].
  intros [He Htr]%andb_prop. destruct e; try done; by apply IH.
Qed.

Lemma in_forallb {A} (P : A → bool) l x :
  forallb P l = true → In x l → P x = true.
Proof. intros Hl Hx. by eapply forallb_forall in Hl. Qed.

Lemma applyCalls_setup tr :
  forallb setupEvent tr = true → applyCalls tr = [].
Proof.
  induction tr as [|e tr IH]; [done|]. cbn [forallb].
  intros [He Htr]%andb_prop. destruct e; try done; by apply IH.
Qed.

Lemma applyCalls_review tr :
  forallb reviewEvent tr = true → applyCalls tr = [].
Proof.
  induction tr as [|e tr IH]; [done|]. cbn [forallb].
  intros [He Htr]%andb_prop. destruct e; try done; by apply IH.
Qed.

(** ** Applying one change *)

Section ApplyFacts.
Context `{Platform} (W : World).

Lemma applyFileChange_known root k c o :
  knownAction (action c) = true →
  applyFileChange W root k c o =
    ([CallApplyFileChange c; requestOf root c], o, settled (backend_mutation W k)).
Proof.
  unfold knownAction, applyFileChange, requestOf. intros Hk.
  rewrite run_emit, <- !or_empty_default.
  destruct (String.eqb (action c) "add"); [done|].
  destruct (String.eqb (action c) "modify"); [done|].
  destruct (String.eqb (action c) "delete"); done.
Qed.

Lemma applyFileChange_unknown root k c o :
  knownAction (action c) = false →
  applyFileChange W root k c o =
    ([CallApplyFileChange c;
      ConsoleWarn ("Unknown action type for change: " +:+ action c +:+ ". Skipping.")],
     o, Normal tt).
Proof.
  unfold knownAction, applyFileChange. intros Hk.
  rewrite run_emit.
  destruct (String.eqb (action c) "add"); [done|].
  destruct (String.eqb (action c) "modify"); [done|].
  destruct (String.eqb (action c) "delete"); done.
Qed.

Lemma imap_attempt_shift root k cs :
  imap ((λ j c, attempt W root (k + j) c) ∘ S) cs
  = imap (λ j c, attempt W root (S k + j) c) cs.
Proof. apply imap_ext. intros j c _. simpl. f_equal. lia. Qed.

Lemma applyLoop_run root cs : ∀ k o,
  applyLoop W root k cs o =
    (concat (imap (λ j c, attempt W root (k + j) c) cs), o, Normal tt).
Proof.
  induction cs as [|c cs IH]; intros k o; [done|].
  cbn [applyLoop]. rewrite run_bind. unfold try_catch.
  cbn [imap concat]. rewrite Nat.add_0_r, imap_attempt_shift.
  unfold attempt at 1.
  destruct (knownAction (action c)) eqn:Hk.
  - rewrite applyFileChange_known by done.
    destruct (backend_mutation W k) as [[]|m]; cbn; by rewrite IH.
  - rewrite applyFileChange_unknown by done. cbn. by rewrite IH.
Qed.

Lemma applyCalls_attempt root k c : applyCalls (attempt W root k c) = [c].
Proof.
  unfold attempt. destruct (knownAction _); [|done].
  unfold requestOf.
  destruct (backend_mutation W k); destruct (String.eqb (action c) "add");
    destruct (String.eqb (action c) "modify"); done.
Qed.

Lemma applyCalls_attempts root cs : ∀ k,
  applyCalls (concat (imap (λ j c, attempt W root (k + j) c) cs)) = cs.
Proof.
  induction cs as [|c cs IH]; intros k; [done|].
  cbn [imap concat].
  rewrite applyCalls_app, applyCalls_attempt, imap_attempt_shift, IH. done.
Qed.

End ApplyFacts.

(** ** The Git pre-check *)

Section PreCheckFacts.
Context `{Platform} (W : World).

Ltac split_run :=
  repeat (cbn -[includes defaultBranchSuggestion] in *;
    match goal with
    | |- context [match ?x with _ => _ end] =>
        lazymatch x with
        | context [match _ with _ => _ end] => fail
        | _ => destruct x eqn:?
        end
    end).

Lemma gitPreCheck_run prompt root o :
  match gitPreCheck W prompt root (yes o) (noGit o) (branch o) o with
  | (ev, o1, c) =>
      forallb setupEvent ev = true
      ∧ yes o1 = yes o
      ∧ (noGit o = true → ev = [] ∧ o1 = o)
      ∧ match c with
        | Normal (g, ob) =>
            (g = false → noGit o1 = true)
            ∧ ∀ b, In (CallCreateBranch b) ev →
                g = true ∧ noGit o1 = false ∧ branch o1 = Some b
                ∧ ob = currentBranchOf W
        | Halt _ => False
        | Throw _ => True
        end
  end.
Proof.
  unfold gitPreCheck, isGitRepository, getCurrentBranch, createBranch,
    currentBranchOf, when, try_catch, options, update, emit, await, throw,
    settled.
  unfold mbind, mret, Prog_bind, Prog_ret, prog_bind, prog_ret.
  split_run.
  all: cbn in *; repeat split; intros; simplify_eq/=.
  all: repeat match goal with
       | H : negb _ = true |- _ => apply negb_true_iff in H
       | H : negb _ = false |- _ => apply negb_false_iff in H
       | H : _ && _ = true |- _ => apply andb_prop in H as [??]
       | H : _ && _ = false |- _ => apply andb_false_iff in H
       | H : _ ∨ _ |- _ => destruct H
       | H : False |- _ => destruct H
       | H : truthy (branch ?o) = true |- _ => destruct (branch o)
       end; simplify_eq/=; try done; try congruence.
Qed.
Lemma gitPreCheck_events prompt root o :
  forallb preCheckEvent
    (gitPreCheck W prompt root (yes o) (noGit o) (branch o) o).1.1 = true.
Proof.
  unfold gitPreCheck, isGitRepository, getCurrentBranch, createBranch,
    when, try_catch, options, update, emit, await, throw, settled.
  unfold mbind, mret, Prog_bind, Prog_ret, prog_bind, prog_ret.
  split_run. all: done.
Qed.

End PreCheckFacts.

(** ** The review loop *)

Section ReviewFacts.
Context `{Platform} (W : World).

Lemma reviewLoop_cons auto g ob ofc pos c rest cta fma o :
  reviewLoop W auto g ob ofc pos (c :: rest) cta fma o =
    let next := reviewLoop W auto g ob ofc (S pos) rest in
    if noEffectiveChange ofc c then next cta fma o
    else if auto then
      after (shownFor ofc c) (next (cta ++ [c]) (fma ++ [filePath c]) o)
    else
      after (shownFor ofc c ++ [PromptConfirm pos c])
        match inquirer_confirm W pos with
        | Yes => next (cta ++ [c]) (fma ++ [filePath c]) o
        | All => next (cta ++ [c]) (fma ++ [filePath c]) (set_yes true o)
        | Abort => (revertBranch W g ob ≫= λ _, halt Aborted) o
        | No => next cta fma o
        end.
Proof.
  cbn [reviewLoop]. unfold noEffectiveChange, shownFor, after.
  destruct (String.eqb (action c) "modify"); cbn [andb];
    [destruct (truthy_string (diffOf ofc c)); cbn [negb]; [|done]|];
    (destruct auto;
     [ rewrite ?run_emit;
       by destruct (reviewLoop W true g ob ofc (S pos) rest _ _ o) as [[??]?]
     | rewrite ?run_emit;
       destruct (inquirer_confirm W pos); rewrite ?run_bind; cbn;
       repeat match goal with
              | |- context [match ?x with _ => _ end] =>
                  lazymatch x with
                  | context [match _ with _ => _ end] => fail
                  | _ => destruct x as [[??]?]
                  end
              end; try done;
       by match goal with
          | |- context [match ?x with Normal _ => _ | _ => _ end] => destruct x
          end ]).
Qed.

Lemma revertBranch_run g ob o :
  revertBranch W g ob o =
    if g && negb (noGit o) && truthy (branch o) && truthy ob then
      ([GitCheckout (default "" ob)], o,
       settled (git_checkout W (default "" ob)))
    else ([], o, Normal tt).
Proof.
  unfold revertBranch. rewrite run_bind. cbn.
  destruct (g && negb (noGit o) && truthy (branch o) && truthy ob); [|done].
  unfold when. by rewrite run_emit.
Qed.

Lemma shownFor_review ofc c : forallb reviewEvent (shownFor ofc c) = true.
Proof. unfold shownFor. by destruct (String.eqb _ _). Qed.

Lemma shownFor_no_prompt ofc c i ch : ¬ In (PromptConfirm i ch) (shownFor ofc c).
Proof.
  unfold shownFor. destruct (String.eqb _ _); cbn; [|tauto].
  intros [?|[]]. discriminate.
Qed.

Lemma reviewed_continue auto g ob ofc pos c rest cta fma o prefix cta1 fma1 o1 r :
  reviewed W auto g ob ofc (S pos) rest cta1 fma1 o1 r →
  forallb reviewEvent prefix = true →
  (∀ i ch, In (PromptConfirm i ch) prefix →
     i = pos ∧ ch = c ∧ auto = false ∧ inquirer_confirm W pos ≠ Abort) →
  noEffectiveChange ofc c = false →
  (cta1 = cta ∧ fma1 = fma) ∨ (cta1 = cta ++ [c] ∧ fma1 = fma ++ [filePath c]) →
  noGit o1 = noGit o → branch o1 = branch o →
  reviewed W auto g ob ofc pos (c :: rest) cta fma o (after prefix r).
Proof.
  destruct r as [[ev o2] r]. unfold reviewed, after.
  intros (Hev & Hng & Hbr & Hpr & Hc) Hpre Hprompt Hnoop Hq Hng1 Hbr1.
  split; [|split; [|split; [|split]]].
  - rewrite forallb_app. by rewrite Hpre, Hev.
  - congruence.
  - congruence.
  - intros i ch [Hin|Hin]%in_app_iff.
    + apply Hprompt in Hin as (-> & -> & -> & _).
      rewrite Nat.sub_diag. done.
    + apply Hpr in Hin as (-> & Hle & Hl & Hn).
      replace (i - pos) with (S (i - S pos)) by lia. split_and!; [done|lia|done|done].
  - destruct r as [[cta' fma']| |].
    + destruct Hc as ((kept & -> & -> & Hk) & Hab). split.
      * destruct Hq as [[-> ->]|[-> ->]].
        -- by exists kept.
        -- exists (c :: kept). rewrite <- !app_assoc. cbn.
           split_and!; [done|done|]. by constructor.
      * intros i ch [Hin|Hin]%in_app_iff; [|by eapply Hab].
        by apply Hprompt in Hin as (-> & _ & _ & ?).
    + destruct Hc as (pre & i & ch & evr & oi & -> & Hi & Hpre' & Hn & Hb & Hr).
      exists (prefix ++ pre), i, ch, evr, oi. rewrite <- app_assoc.
      split_and!; try done; try congruence.
      intros j ch' [Hin|Hin]%in_app_iff; [|by eapply Hpre'].
      by apply Hprompt in Hin as (-> & _ & _ & ?).
    + destruct Hc as (pre & i & ch & evr & oi & -> & Hi & Hpre' & Hn & Hb & Hr).
      exists (prefix ++ pre), i, ch, evr, oi. rewrite <- app_assoc.
      split_and!; try done; try congruence.
      intros j ch' [Hin|Hin]%in_app_iff; [|by eapply Hpre'].
      by apply Hprompt in Hin as (-> & _ & _ & ?).
Qed.

Lemma reviewLoop_run auto g ob ofc batch : ∀ pos cta fma o,
  reviewed W auto g ob ofc pos batch cta fma o
    (reviewLoop W auto g ob ofc pos batch cta fma o).
Proof.
  induction batch as [|c rest IH]; intros pos cta fma o.
  { cbn. split_and!; try done. exists []. by rewrite !app_nil_r. }
  rewrite reviewLoop_cons. cbv zeta.
  destruct (noEffectiveChange ofc c) eqn:Hnoop.
  { specialize (IH (S pos) cta fma o).
    destruct (reviewLoop W auto g ob ofc (S pos) rest cta fma o) as [[ev o2] r].
    destruct IH as (Hev & Hng & Hbr & Hpr & Hc).
    split_and!; try done.
    intros i ch Hin. apply Hpr in Hin as (-> & Hle & Hl & Hn).
    replace (i - pos) with (S (i - S pos)) by lia. split_and!; [done|lia|done|done]. }
  destruct auto.
  { eapply reviewed_continue; eauto using shownFor_review.
    intros i ch Hin. by apply shownFor_no_prompt in Hin. }
  assert (Hfa : forallb reviewEvent (shownFor ofc c ++ [PromptConfirm pos c]) = true).
  { rewrite forallb_app. by rewrite shownFor_review. }
  assert (Hin : ∀ i ch,
    In (PromptConfirm i ch) (shownFor ofc c ++ [PromptConfirm pos c]) →
    i = pos ∧ ch = c).
  { intros i ch [Hs|[Hp|[]]]%in_app_iff; [|by simplify_eq].
    by apply shownFor_no_prompt in Hs. }
  destruct (inquirer_confirm W pos) eqn:Hans.
  - eapply reviewed_continue; eauto.
    intros i ch (-> & ->)%Hin. by rewrite Hans.
  - eapply reviewed_continue; eauto.
    intros i ch (-> & ->)%Hin. by rewrite Hans.
  - eapply reviewed_continue; eauto.
    intros i ch (-> & ->)%Hin. by rewrite Hans.
  - destruct ((revertBranch W g ob ≫= λ _, halt Aborted) o) as [[evr o2] r] eqn:Hr.
    assert (Hshape : evr = (if g && negb (noGit o) && truthy (branch o) && truthy ob
                            then [GitCheckout (default "" ob)] else [])
                     ∧ o2 = o ∧ ∀ x, r ≠ Normal x).
    { rewrite run_bind, revertBranch_run in Hr.
      destruct (g && negb (noGit o) && truthy (branch o) && truthy ob);
        [destruct (settled _)|]; cbn in Hr; by simplify_eq. }
    destruct Hshape as (Hevr & -> & Hnn).
    unfold reviewed, after. split_and!; try done.
    + rewrite forallb_app, Hfa. rewrite Hevr. by destruct (_ && _).
    + intros i ch [Hi|Hi]%in_app_iff.
      * apply Hin in Hi as [-> ->]. rewrite Nat.sub_diag. done.
      * rewrite Hevr in Hi. destruct (_ && _); cbn in Hi; [|done].
        by destruct Hi as [?|[]].
    + destruct r as [x| |]; [by destruct (Hnn x)| |].
      * exists (shownFor ofc c), pos, c, evr, o. rewrite <- app_assoc.
        split_and!; try done. intros j ch' Hj. by apply shownFor_no_prompt in Hj.
      * exists (shownFor ofc c), pos, c, evr, o. rewrite <- app_assoc.
        split_and!; try done. intros j ch' Hj. by apply shownFor_no_prompt in Hj.
Qed.

End ReviewFacts.

(** ** The phases of a run *)

Section RunFacts.
Context `{Platform} (W : World).

Lemma stageFiles_run root ps o :
  ∃ tail c, stageFiles W root ps o = (CallStageFiles ps :: GitAdd (map (path_relative root) ps) :: tail, o, c)
    ∧ forallb closingEvent tail = true
    ∧ (∀ qs, ¬ In (CallStageFiles qs) tail)
    ∧ (∀ x, c ≠ Halt x).
Proof.
  unfold stageFiles. rewrite run_emit. unfold try_catch. rewrite run_emit.
  unfold await. destruct (git_add W _) as [[]|m]; cbn.
  - exists [], (Normal tt). split_and!; try done. tauto.
  - eexists _, _. split_and!; [done|done| |done].
    intros qs [?|[]]. discriminate.
Qed.

Lemma run_failure {A} m o :
  (emit (ConsoleError ("Error during generation: " +:+ m))
   ≫= λ _, emit (ProcessExit 1) ≫= λ _, @halt A Failed) o
  = ([ConsoleError ("Error during generation: " +:+ m); ProcessExit 1],
     o, Halt Failed).
Proof. reflexivity. Qed.

Ltac stopped_in_setup Hs :=
  left; cbn [trace outcome]; split; [|done];
  repeat (rewrite ?forallb_app; cbn [forallb setupEvent andb app]);
  rewrite ?Hs; done.

(** A run either stops before the review, or goes through the review loop
    and what follows it. *)
Lemma generate_phases prompt o :
  let root := path_resolve (process_cwd W) (path o) in
  let r := generate W prompt o in
  (forallb setupEvent (trace r) = true ∧ outcome r ≠ Aborted)
  ∨ ∃ files llm g ob o1 pre0 rev o2 c,
      let pre := GetAuthToken :: pre0
                 ++ [ScanProject (allScanPathsOf o) root; CallLLM prompt] in
      backend_scanProject W = Resolved files
      ∧ backend_callLLM W = Resolved llm
      ∧ gitPreCheck W prompt root (yes o) (noGit o) (branch o) o
        = (pre0, o1, Normal (g, ob))
      ∧ reviewLoop W (yes o) g ob (originalFileContentsOf files) 0
          (changes llm) [] [] o1 = (rev, o2, c)
      ∧ match c with
        | Normal (cta, fma) =>
            ∃ post,
              trace r = pre ++ rev
                        ++ concat (imap (λ j ch, attempt W root j ch) cta) ++ post
              ∧ forallb closingEvent post = true
              ∧ (∀ ps, In (CallStageFiles ps) post → ps = fma)
        | Halt x => trace r = pre ++ rev ∧ outcome r = x
        | Throw m =>
            trace r = pre ++ rev
                      ++ [ConsoleError ("Error during generation: " +:+ m);
                          ProcessExit 1]
            ∧ outcome r = Failed
        end.
Proof.
  intros root r. subst r. unfold generate.
  destruct (generateAction W prompt o) as [[ev o'] c] eqn:Hrun.
  unfold generateAction in Hrun. fold root in Hrun.
  unfold try_catch, generateBody in Hrun. rewrite run_bind in Hrun.
  unfold getAuthenticatedBackendApi in Hrun. rewrite run_emit, run_bind in Hrun.
  unfold await at 1 in Hrun.
  destruct (auth_getAuthToken W) as [[]|m]; cbn [settled negb] in Hrun;
    [|left; vm_compute in Hrun; by simplify_eq..].
  cbn [mret Prog_ret prog_ret app] in Hrun. rewrite run_bind in Hrun.
  pose proof (gitPreCheck_run W prompt root o) as Hpre.
  destruct (gitPreCheck W prompt root (yes o) (noGit o) (branch o) o)
    as [[pre0 o1] [[g ob]|x|m]] eqn:Hgit;
    [|by destruct Hpre as (_ & _ & _ & [])|].
  2: { destruct Hpre as (Hs & _). rewrite run_failure in Hrun.
       simplify_eq. stopped_in_setup Hs. }
  destruct Hpre as (Hs & _).
  rewrite run_emit, run_bind in Hrun. unfold await at 1 in Hrun.
  destruct (backend_scanProject W) as [files|m] eqn:Hscan; cbn [settled] in Hrun.
  2: { rewrite run_failure in Hrun. simplify_eq. stopped_in_setup Hs. }
  cbn [app] in Hrun.
  rewrite run_emit, run_bind in Hrun. unfold await at 1 in Hrun.
  destruct (backend_callLLM W) as [llm|m] eqn:Hllm; cbn [settled] in Hrun.
  2: { rewrite run_failure in Hrun. simplify_eq. stopped_in_setup Hs. }
  cbn [app] in Hrun.
  destruct (changes llm) as [|ch0 chs] eqn:Hchs.
  { cbn in Hrun. simplify_eq. stopped_in_setup Hs. }
  rewrite <- Hchs in Hrun. rewrite run_bind in Hrun.
  right. exists files, llm, g, ob, o1, pre0.
  destruct (reviewLoop W (yes o) g ob (originalFileContentsOf files) 0
              (changes llm) [] [] o1) as [[rev o2] [[cta fma]|x|m]] eqn:Hrev.
  all: eexists _, _, _; split_and!; try done.
  - destruct cta as [|ch cta].
    + rewrite run_bind, revertBranch_run in Hrun.
      destruct (g && negb (noGit o2) && truthy (branch o2) && truthy ob);
        [destruct (git_checkout W (default "" ob)) as [[]|m]|];
        cbn [settled] in Hrun; rewrite ?run_failure in Hrun;
        cbn in Hrun; simplify_eq; cbn [trace imap concat app].
      * exists [GitCheckout (default "" ob)].
        split_and!; [same_trace|done|]. by intros ps [?|[]].
      * exists [GitCheckout (default "" ob);
                ConsoleError ("Error during generation: " +:+ m); ProcessExit 1].
        split_and!; [same_trace|done|].
        intros ps [?|[?|[?|[]]]]; discriminate.
      * exists []. split_and!; [same_trace|done|].
        by intros ps [].
    + rewrite run_bind, applyLoop_run in Hrun. rewrite run_bind in Hrun.
      set (attempts := concat (imap _ (ch :: cta))) in *. clearbody attempts.
      unfold options at 1 in Hrun.
      destruct (g && negb (noGit o2)); unfold when in Hrun.
      * destruct (stageFiles_run root fma o2) as (tail & cs & Hst & Htail & Hno & Hnh).
        rewrite Hst in Hrun.
        destruct cs as [[]|x|m]; [|by destruct (Hnh x)|];
          rewrite ?run_failure in Hrun; cbn in Hrun; simplify_eq; cbn [trace].
        -- eexists (_ :: _ :: tail). split_and!.
           ++ same_trace.
           ++ done.
           ++ intros ps [?|[?|Hin]]; [by simplify_eq|done|by apply Hno in Hin].
        -- eexists (_ :: _ :: tail ++ [_; _]). split_and!.
           ++ same_trace.
           ++ cbn. by rewrite forallb_app, Htail.
           ++ intros ps [?|[?|[Hin|Hin]%in_app_iff]];
                [by simplify_eq|done|by apply Hno in Hin|].
              destruct Hin as [?|[?|[]]]; discriminate.
      * cbn in Hrun. simplify_eq. cbn [trace]. exists [].
        split_and!; [same_trace|done|by intros ps []].
  - cbn in Hrun. simplify_eq. cbn [trace outcome]. split; [same_trace|done].
  - rewrite run_failure in Hrun. cbn in Hrun. simplify_eq. cbn [trace outcome].
    split; [same_trace|done].
Qed.

End RunFacts.

(** * The claims *)

Section Claims.
Context `{Platform} (W : World).

Lemma attempts_apply root cs : ∀ k,
  forallb applyEvent (concat (imap (λ j c, attempt W root (k + j) c) cs)) = true.
Proof.
  induction cs as [|c cs IH]; intros k; [done|].
  cbn [imap concat]. rewrite forallb_app, imap_attempt_shift, IH, andb_true_r.
  unfold attempt, requestOf.
  destruct (knownAction _); [|done].
  destruct (backend_mutation W _); destruct (String.eqb (action c) "add");
    destruct (String.eqb (action c) "modify"); done.
Qed.

Lemma prompt_not_setup tr i c :
  forallb setupEvent tr = true → ¬ In (PromptConfirm i c) tr.
Proof. intros Htr Hin. by apply (in_forallb _ _ _ Htr) in Hin. Qed.

Lemma prompt_not_closing tr i c :
  forallb closingEvent tr = true → ¬ In (PromptConfirm i c) tr.
Proof. intros Htr Hin. by apply (in_forallb _ _ _ Htr) in Hin. Qed.

Lemma prompt_not_apply tr i c :
  forallb applyEvent tr = true → ¬ In (PromptConfirm i c) tr.
Proof. intros Htr Hin. by apply (in_forallb _ _ _ Htr) in Hin. Qed.

Lemma stage_not_setup tr ps :
  forallb setupEvent tr = true → ¬ In (CallStageFiles ps) tr.
Proof. intros Htr Hin. by apply (in_forallb _ _ _ Htr) in Hin. Qed.

Lemma stage_not_review tr ps :
  forallb reviewEvent tr = true → ¬ In (CallStageFiles ps) tr.
Proof. intros Htr Hin. by apply (in_forallb _ _ _ Htr) in Hin. Qed.

Lemma stage_not_apply tr ps :
  forallb applyEvent tr = true → ¬ In (CallStageFiles ps) tr.
Proof. intros Htr Hin. by apply (in_forallb _ _ _ Htr) in Hin. Qed.

Lemma in_applyCalls tr c :
  In (CallApplyFileChange c) tr ↔ In c (applyCalls tr).
Proof.
  unfold applyCalls. rewrite <- !list_elem_of_In, list_elem_of_omap. split.
  - intros Hin. by exists (CallApplyFileChange c).
  - intros (e & He & Hc). destruct e; by simplify_eq/=.
Qed.

(** The facts about a run that went into the review loop. *)
Ltac run_view prompt o :=
  destruct (generate_phases W prompt o)
    as [[Hstop Hout]
       |(scanned & llm & g & ob & o1 & pre0 & rev & o2 & cr
         & Hscan & Hllm & Hgit & Hrev & Hshape)];
  [|pose proof (gitPreCheck_run W prompt
                  (path_resolve (process_cwd W) (path o)) o) as Hpre;
    rewrite Hgit in Hpre;
    pose proof (reviewLoop_run W (yes o) g ob (originalFileContentsOf scanned)
                  (changes llm) 0 [] [] o1) as Hr;
    rewrite Hrev in Hr;
    assert (Hsetup : forallb setupEvent
              (GetAuthToken :: pre0 ++
                 [ScanProject (allScanPathsOf o)
                    (path_resolve (process_cwd W) (path o));
                  CallLLM prompt]) = true)
      by (cbn; rewrite forallb_app; destruct Hpre as (-> & _); done)].

(** The changes handed to [applyFileChange] are the queue the review loop
    built; none when the run does not reach the apply loop. *)
Lemma applyCalls_generate prompt o :
  applyCalls (trace (generate W prompt o)) = []
  ∨ ∃ files llm g ob o1 rev o2 fma,
      backend_scanProject W = Resolved files
      ∧ reviewLoop W (yes o) g ob (originalFileContentsOf files) 0
          (changes llm) [] [] o1
        = (rev, o2, Normal (applyCalls (trace (generate W prompt o)), fma)).
Proof.
  run_view prompt o.
  { left. by apply applyCalls_setup. }
  destruct Hr as (Hev & _).
  destruct cr as [[cta fma]|x|m].
  - destruct Hshape as (post & Htr & Hpost & _). right.
    exists scanned, llm, g, ob, o1, rev, o2, fma. split; [done|].
    rewrite Htr, !applyCalls_app, applyCalls_setup, applyCalls_review by done.
    rewrite (applyCalls_attempts W _ cta 0), applyCalls_closing by done.
    by rewrite app_nil_r.
  - left. destruct Hshape as [-> _].
    by rewrite applyCalls_app, applyCalls_setup, applyCalls_review.
  - left. destruct Hshape as [-> _].
    by rewrite !applyCalls_app, applyCalls_setup, applyCalls_review.
Qed.

(** A change that is applied, and a change the user is asked about, is not
    a [modify] with an empty diff. *)
Lemma applied_has_effect prompt o files c :
  backend_scanProject W = Resolved files →
  In (CallApplyFileChange c) (trace (generate W prompt o)) →
  noEffectiveChange (originalFileContentsOf files) c = false.
Proof.
  intros Hscan Hin%in_applyCalls.
  destruct (applyCalls_generate prompt o) as [Hnil|Hq].
  { rewrite Hnil in Hin. destruct Hin. }
  destruct Hq as (files' & llm & g & ob & o1 & rev & o2 & fma & Hscan' & Hrev).
  assert (files' = files) as -> by congruence.
  pose proof (reviewLoop_run W (yes o) g ob (originalFileContentsOf files)
                (changes llm) 0 [] [] o1) as Hr.
  rewrite Hrev in Hr. destruct Hr as (_ & _ & _ & _ & (kept & Hk & _ & Hall) & _).
  cbn in Hk. rewrite Hk in Hin. rewrite Forall_forall in Hall.
  apply Hall. by apply list_elem_of_In.
Qed.

Lemma prompted_has_effect prompt o files i c :
  backend_scanProject W = Resolved files →
  In (PromptConfirm i c) (trace (generate W prompt o)) →
  noEffectiveChange (originalFileContentsOf files) c = false.
Proof.
  intros Hscan' Hin. run_view prompt o.
  { by apply prompt_not_setup in Hin. }
  assert (scanned = files) as -> by congruence.
  destruct Hr as (Hev & _ & _ & Hpr & _).
  assert (Hrevin : In (PromptConfirm i c) rev); [|by apply Hpr in Hrevin as (_ & _ & _ & ?)].
  destruct cr as [[cta fma]|x|m].
  - destruct Hshape as (post & Htr & Hpost & _).
    rewrite Htr, !in_app_iff in Hin. destruct Hin as [Hin|[Hin|[Hin|Hin]]]; [|done| |].
    + by apply prompt_not_setup in Hin.
    + by apply (prompt_not_apply _ _ _ (attempts_apply _ _ 0)) in Hin.
    + by apply prompt_not_closing in Hin.
  - destruct Hshape as [Htr _]. rewrite Htr, in_app_iff in Hin.
    destruct Hin as [Hin|Hin]; [|done]. by apply prompt_not_setup in Hin.
  - destruct Hshape as [Htr _]. rewrite Htr, !in_app_iff in Hin.
    destruct Hin as [Hin|[Hin|Hin]]; [|done|].
    + by apply prompt_not_setup in Hin.
    + by destruct Hin as [?|[?|[]]].
Qed.

(** The catch-all handler leaves no exception: a run ends by reaching the
    end of the action, by a [return], or by [process.exit]. *)
Lemma generateAction_no_throw prompt o message :
  (generateAction W prompt o).2 ≠ Throw message.
Proof.
  unfold generateAction, try_catch.
  destruct (generateBody W _ _ _ _ _ _ o) as [[ev o1] [[]|x|m]]; [done..|].
  by rewrite run_failure.
Qed.

(** A decision prompt carries the position of its change in the proposed
    batch, and is only shown without [--yes]. *)
Lemma prompt_position prompt o i c :
  In (PromptConfirm i c) (trace (generate W prompt o)) →
  yes o = false
  ∧ ∃ llm, backend_callLLM W = Resolved llm ∧ changes llm !! i = Some c.
Proof.
  intros Hin. run_view prompt o.
  { by apply prompt_not_setup in Hin. }
  destruct Hr as (Hev & _ & _ & Hpr & _).
  assert (Hrevin : In (PromptConfirm i c) rev).
  { destruct cr as [[cta fma]|x|m].
    - destruct Hshape as (post & Htr & Hpost & _).
      rewrite Htr, !in_app_iff in Hin. destruct Hin as [Hin|[Hin|[Hin|Hin]]]; [|done| |].
      + by apply prompt_not_setup in Hin.
      + by apply (prompt_not_apply _ _ _ (attempts_apply _ _ 0)) in Hin.
      + by apply prompt_not_closing in Hin.
    - destruct Hshape as [Htr _]. rewrite Htr, in_app_iff in Hin.
      destruct Hin as [Hin|Hin]; [|done]. by apply prompt_not_setup in Hin.
    - destruct Hshape as [Htr _]. rewrite Htr, !in_app_iff in Hin.
      destruct Hin as [Hin|[Hin|Hin]]; [|done|].
      + by apply prompt_not_setup in Hin.
      + by destruct Hin as [?|[?|[]]]. }
  apply Hpr in Hrevin as (Hy & _ & Hl & _). split; [done|].
  exists llm. rewrite Nat.sub_0_r in Hl. done.
Qed.

(** C2. When the user's decision at some position of the batch is [abort],
    the apply phase is never reached: the run hands no change to
    [applyFileChange] and sends no remote mutation, whatever was confirmed
    at earlier positions, and it ends [Aborted] or [Failed]. *)
Theorem abort_applies_nothing prompt o i c :
  In (PromptConfirm i c) (trace (generate W prompt o)) →
  inquirer_confirm W i = Abort →
  applyCalls (trace (generate W prompt o)) = []
  ∧ (∀ e, In e (trace (generate W prompt o)) → remoteMutation e = false)
  ∧ outcome (generate W prompt o) ≠ Done.
Proof.
  intros Hin Hab.
  destruct (generate_phases W prompt o) as [[Hs Ho]|Hrun].
  { by apply prompt_not_setup in Hin. }
  destruct Hrun as (files & llm & g & ob & o1 & pre0 & rev & o2 & cr
                    & _ & _ & Hgit & Hrev & Hshape).
  pose proof (gitPreCheck_run W prompt (path_resolve (process_cwd W) (path o)) o) as Hpre.
  rewrite Hgit in Hpre. destruct Hpre as (Hs & _).
  pose proof (reviewLoop_run W (yes o) g ob (originalFileContentsOf files)
                (changes llm) 0 [] [] o1) as Hr.
  rewrite Hrev in Hr. destruct Hr as (Hev & _ & _ & _ & Hc).
  assert (Hsetup : forallb setupEvent
            (GetAuthToken :: pre0 ++
               [ScanProject (allScanPathsOf o) (path_resolve (process_cwd W) (path o));
                CallLLM prompt]) = true).
  { cbn. by rewrite forallb_app, Hs. }
  destruct cr as [[cta fma]|x|m].
  - destruct Hshape as (post & Htr & Hpost & _). destruct Hc as [_ Hno].
    rewrite Htr in Hin. rewrite !in_app_iff in Hin.
    destruct Hin as [Hin|[Hin|[Hin|Hin]]].
    + by apply prompt_not_setup in Hin.
    + by apply Hno in Hin.
    + by apply (prompt_not_apply _ _ _ (attempts_apply _ _ 0)) in Hin.
    + by apply prompt_not_closing in Hin.
  - destruct Hc as (pre & j & ch & evr & oi & _ & _ & _ & _ & _ & Hr).
    rewrite run_bind, revertBranch_run in Hr.
    assert (x = Aborted) as ->.
    { destruct (g && negb (noGit oi) && truthy (branch oi) && truthy ob);
        [destruct (git_checkout W (default "" ob))|];
        cbn in Hr; by simplify_eq. }
    destruct Hshape as [Htr Hout]. rewrite Htr, Hout. split_and!; [| |done].
    + by rewrite applyCalls_app, applyCalls_setup, applyCalls_review.
    + intros e [He|He]%in_app_iff.
      * apply (in_forallb _ _ _ Hsetup) in He. by destruct e.
      * apply (in_forallb _ _ _ Hev) in He. by destruct e.
  - destruct Hshape as [Htr Hout]. rewrite Htr, Hout. split_and!; [| |done].
    + by rewrite !applyCalls_app, applyCalls_setup, applyCalls_review.
    + intros e [He|[He|He]%in_app_iff]%in_app_iff.
      * apply (in_forallb _ _ _ Hsetup) in He. by destruct e.
      * apply (in_forallb _ _ _ Hev) in He. by destruct e.
      * by destruct He as [<-|[<-|[]]].
Qed.

Lemma append_empty_l s : "" +:+ s = s.
Proof. reflexivity. Qed.

Lemma generateUnifiedDiff_identical s :
  reportedUnchanged s → generateUnifiedDiff s s = "".
Proof.
  intros [Hd|(part & Hd & Ha & Hr)]; unfold generateUnifiedDiff; rewrite Hd;
    [done|]. by rewrite Ha, Hr.
Qed.

Lemma generateUnifiedDiff_from_empty s :
  reportedAdded s →
  generateUnifiedDiff "" s
  = chalk_green (join_lines (map (λ line, "+ " +:+ line) (split_lines s))).
Proof.
  intros (part & Hd & Hv & Ha). unfold generateUnifiedDiff. rewrite Hd.
  destruct (Diff.added part) as [[]|] eqn:Hadded; try done.
  cbn [is_undefined andb foldl]. unfold render_part.
  by rewrite Hadded, Hv, append_empty_l.
Qed.

Lemma originalFileContentsOf_absent files p :
  Forall (λ f, ScannedFile.filePath f ≠ p) files →
  originalFileContentsOf files !! p = None.
Proof.
  unfold originalFileContentsOf.
  assert (Hgen : ∀ m : gmap string string, m !! p = None →
            Forall (λ f, ScannedFile.filePath f ≠ p) files →
            foldl (λ m file, <[ScannedFile.filePath file := ScannedFile.content file]> m)
              m files !! p = None).
  { induction files as [|f files IH]; intros m Hm Hall; [done|].
    inversion_clear Hall as [|?? Hf Hfiles]. cbn [foldl].
    apply IH; [|done]. by rewrite lookup_insert_ne. }
  apply Hgen. apply lookup_empty.
Qed.

(** X27. Where [Diff.diffLines] reports the unchanged text in the shape the
    check of [generateUnifiedDiff] recognises (see [reportedUnchanged]), a
    [modify] change whose new content is identical to the content captured
    for its path at scan time has an empty diff; the user is never asked
    about it and it is never handed to [applyFileChange], with or without
    [--yes]. *)
Theorem identical_modify_is_skipped prompt o files c s :
  reportedUnchanged s →
  backend_scanProject W = Resolved files →
  action c = "modify" →
  originalFileContentsOf files !! filePath c = Some s →
  newContent c = Some s →
  generateUnifiedDiff s s = ""
  ∧ diffOf (originalFileContentsOf files) c = ""
  ∧ (∀ i, ¬ In (PromptConfirm i c) (trace (generate W prompt o)))
  ∧ ¬ In (CallApplyFileChange c) (trace (generate W prompt o)).
Proof.
  intros Hd Hscan Hact Horig Hnew.
  assert (Hdiff : diffOf (originalFileContentsOf files) c = "").
  { unfold diffOf. rewrite Horig, Hnew.
    assert (or_empty (Some s) = s) as -> by (by destruct s).
    by apply generateUnifiedDiff_identical. }
  assert (Hnoop : noEffectiveChange (originalFileContentsOf files) c = true).
  { unfold noEffectiveChange. by rewrite Hact, Hdiff. }
  split_and!.
  - by apply generateUnifiedDiff_identical.
  - done.
  - intros i Hin. apply (prompted_has_effect _ _ files) in Hin; congruence.
  - intros Hin. apply (applied_has_effect _ _ files) in Hin; congruence.
Qed.

(** C10. A [modify] change whose path is absent from the scan results is
    diffed against the empty string.  When the library reports the new
    content against the empty text as one added part, as every release
    does, the new content is shown whole as additions (every line behind
    ["+ "]); when the new content is empty or missing and the library
    reports the empty text as unchanged, the change is a no-op that is
    neither reviewed nor applied. *)
Theorem unscanned_modify_diffs_against_empty prompt o files c :
  backend_scanProject W = Resolved files →
  action c = "modify" →
  Forall (λ f, ScannedFile.filePath f ≠ filePath c) files →
  diffOf (originalFileContentsOf files) c
  = generateUnifiedDiff "" (or_empty (newContent c))
  ∧ (reportedAdded (or_empty (newContent c)) →
     diffOf (originalFileContentsOf files) c
     = chalk_green (join_lines (map (λ line, "+ " +:+ line)
                                  (split_lines (or_empty (newContent c))))))
  ∧ (or_empty (newContent c) = "" → reportedUnchanged "" →
     diffOf (originalFileContentsOf files) c = ""
     ∧ (∀ i, ¬ In (PromptConfirm i c) (trace (generate W prompt o)))
     ∧ ¬ In (CallApplyFileChange c) (trace (generate W prompt o))).
Proof.
  intros Hscan Hact Habs.
  assert (Hdiff : diffOf (originalFileContentsOf files) c
                  = generateUnifiedDiff "" (or_empty (newContent c))).
  { unfold diffOf. by rewrite (originalFileContentsOf_absent _ _ Habs). }
  split_and!; [done| |].
  - intros Hadd. rewrite Hdiff. by apply generateUnifiedDiff_from_empty.
  - intros Hempty Hsame.
    assert (Hd : diffOf (originalFileContentsOf files) c = "").
    { rewrite Hdiff, Hempty. by apply generateUnifiedDiff_identical. }
    assert (Hnoop : noEffectiveChange (originalFileContentsOf files) c = true).
    { unfold noEffectiveChange. by rewrite Hact, Hd. }
    split_and!; [done| |].
    + intros i Hin. apply (prompted_has_effect _ _ files) in Hin; congruence.
    + intros Hin. apply (applied_has_effect _ _ files) in Hin; congruence.
Qed.

(** C5, as the code has it. When [stageFiles] is called, the paths it is
    given are the paths of the confirmed changes, in the order in which
    they were handed to [applyFileChange], whether or not their remote
    mutation succeeded. *)
Theorem staged_paths_are_confirmed_paths prompt o ps :
  In (CallStageFiles ps) (trace (generate W prompt o)) →
  ps = map filePath (applyCalls (trace (generate W prompt o))).
Proof.
  intros Hin. run_view prompt o.
  { by apply stage_not_setup in Hin. }
  destruct Hr as (Hev & _ & _ & _ & Hc).
  destruct cr as [[cta fma]|x|m].
  - destruct Hshape as (post & Htr & Hpost & Hstage).
    destruct Hc as ((kept & Hk & Hf & _) & _). cbn in Hk, Hf. subst cta fma.
    rewrite Htr, !applyCalls_app, applyCalls_setup, applyCalls_review by done.
    rewrite (applyCalls_attempts W _ kept 0), applyCalls_closing by done.
    rewrite app_nil_r. cbn [app].
    rewrite Htr, !in_app_iff in Hin. destruct Hin as [Hin|[Hin|[Hin|Hin]]].
    + by apply stage_not_setup in Hin.
    + by apply stage_not_review in Hin.
    + by apply (stage_not_apply _ _ (attempts_apply _ _ 0)) in Hin.
    + by apply Hstage.
  - destruct Hshape as [Htr _]. rewrite Htr, in_app_iff in Hin.
    destruct Hin as [Hin|Hin].
    + by apply stage_not_setup in Hin.
    + by apply stage_not_review in Hin.
  - destruct Hshape as [Htr _]. rewrite Htr, !in_app_iff in Hin.
    destruct Hin as [Hin|[Hin|Hin]].
    + by apply stage_not_setup in Hin.
    + by apply stage_not_review in Hin.
    + by destruct Hin as [?|[?|[]]].
Qed.

Lemma branch_not_review tr b :
  forallb reviewEvent tr = true → ¬ In (CallCreateBranch b) tr.
Proof. intros Htr Hin. by apply (in_forallb _ _ _ Htr) in Hin. Qed.

Lemma branch_not_apply tr b :
  forallb applyEvent tr = true → ¬ In (CallCreateBranch b) tr.
Proof. intros Htr Hin. by apply (in_forallb _ _ _ Htr) in Hin. Qed.

Lemma branch_not_closing tr b :
  forallb closingEvent tr = true → ¬ In (CallCreateBranch b) tr.
Proof. intros Htr Hin. by apply (in_forallb _ _ _ Htr) in Hin. Qed.

Lemma abort_prompt_is_last pre j ch name i c :
  (∀ j' ch', In (PromptConfirm j' ch') pre → inquirer_confirm W j' ≠ Abort) →
  inquirer_confirm W i = Abort →
  In (PromptConfirm i c) (pre ++ [PromptConfirm j ch; GitCheckout name]) →
  j = i ∧ ch = c.
Proof.
  intros Hno Hab [Hi|[Hi|[Hi|[]]]]%in_app_iff.
  - by apply Hno in Hi.
  - by simplify_eq.
  - discriminate.
Qed.

(** C6, as the code has it. When the user aborts after a working branch
    was created and the original branch is known, the original branch is
    checked out right after the decision.  If the checkout succeeds the
    run ends [Aborted]; if the checkout call itself errors, the error is
    reported and the run ends [Failed] with exit code 1. *)
Theorem abort_checks_out_original_branch prompt o i c b original :
  In (PromptConfirm i c) (trace (generate W prompt o)) →
  inquirer_confirm W i = Abort →
  In (CallCreateBranch b) (trace (generate W prompt o)) →
  b ≠ "" →
  git_branchLocal W = Resolved original →
  original ≠ "" →
  ∃ before,
    match git_checkout W original with
    | Resolved _ =>
        trace (generate W prompt o)
        = before ++ [PromptConfirm i c; GitCheckout original]
        ∧ outcome (generate W prompt o) = Aborted
    | Rejected message =>
        trace (generate W prompt o)
        = before ++ [PromptConfirm i c; GitCheckout original;
                     ConsoleError ("Error during generation: " +:+ message);
                     ProcessExit 1]
        ∧ outcome (generate W prompt o) = Failed
    end.
Proof.
  intros Hin Hab Hbr Hb Horig Hne. run_view prompt o.
  { by apply prompt_not_setup in Hin. }
  destruct Hr as (Hev & _ & _ & _ & Hc).
  destruct Hpre as (Hs & _ & _ & _ & Hcreated).
  assert (Hguard : ∀ oi, noGit oi = noGit o1 → branch oi = branch o1 →
            In (CallCreateBranch b) pre0 →
            revertBranch W g ob oi
            = ([GitCheckout original], oi, settled (git_checkout W original))).
  { intros oi Hn Hbo Hp. apply Hcreated in Hp as (-> & Hn1 & Hb1 & ->).
    rewrite revertBranch_run, Hn, Hbo, Hn1, Hb1.
    unfold currentBranchOf. rewrite Horig. cbn [andb negb default].
    by rewrite !truthy_Some. }
  assert (Hpre0 : ∀ tail, forallb closingEvent tail = true ∨ tail = [] →
            In (CallCreateBranch b)
              ((GetAuthToken :: pre0 ++
                  [ScanProject (allScanPathsOf o)
                     (path_resolve (process_cwd W) (path o)); CallLLM prompt])
               ++ rev ++ tail) →
            In (CallCreateBranch b) pre0).
  { intros tail Ht. rewrite !in_app_iff. cbn [In]. rewrite in_app_iff. cbn [In].
    intros [[?|[?|[?|[?|[]]]]]|[Hi|Hi]]; try done.
    - by apply branch_not_review in Hi.
    - destruct Ht as [Ht| ->]; [by apply branch_not_closing in Hi|done]. }
  assert (Hprompt : ∀ tail, forallb closingEvent tail = true ∨ tail = [] →
            In (PromptConfirm i c)
              ((GetAuthToken :: pre0 ++
                  [ScanProject (allScanPathsOf o)
                     (path_resolve (process_cwd W) (path o)); CallLLM prompt])
               ++ rev ++ tail) →
            In (PromptConfirm i c) rev).
  { intros tail Ht. rewrite !in_app_iff.
    intros [Hi|[Hi|Hi]]; [by apply prompt_not_setup in Hi|done|].
    destruct Ht as [Ht| ->]; [by apply prompt_not_closing in Hi|done]. }
  destruct cr as [[cta fma]|x|m].
  - destruct Hshape as (post & Htr & Hpost & _). destruct Hc as [_ Hno].
    rewrite Htr, !in_app_iff in Hin. destruct Hin as [Hin|[Hin|[Hin|Hin]]].
    + by apply prompt_not_setup in Hin.
    + by apply Hno in Hin.
    + by apply (prompt_not_apply _ _ _ (attempts_apply _ _ 0)) in Hin.
    + by apply prompt_not_closing in Hin.
  - destruct Hshape as [Htr Hout].
    destruct Hc as (pre & j & ch & evr & oi & Hrevs & _ & Hno & Hn & Hbo & Hrun).
    rewrite <- (app_nil_r rev) in Htr. rewrite Htr in Hin, Hbr.
    apply (Hprompt []) in Hin; [|by right].
    apply (Hpre0 []) in Hbr; [|by right].
    rewrite run_bind, (Hguard oi Hn Hbo Hbr) in Hrun. rewrite app_nil_r in Htr.
    revert Hout.
    destruct (git_checkout W original) as [[]|message]; cbn in Hrun; simplify_eq.
    intros Hout.
    destruct (abort_prompt_is_last _ _ _ _ _ _ Hno Hab Hin) as [-> ->].
    exists ((GetAuthToken :: pre0 ++
               [ScanProject (allScanPathsOf o)
                  (path_resolve (process_cwd W) (path o)); CallLLM prompt]) ++ pre).
    split; [|exact Hout]. rewrite Htr. same_trace.
  - destruct Hshape as [Htr Hout].
    destruct Hc as (pre & j & ch & evr & oi & Hrevs & _ & Hno & Hn & Hbo & Hrun).
    rewrite Htr in Hin, Hbr.
    apply (Hprompt [_; _]) in Hin; [|by left].
    apply (Hpre0 [_; _]) in Hbr; [|by left].
    rewrite run_bind, (Hguard oi Hn Hbo Hbr) in Hrun.
    revert Hout.
    destruct (git_checkout W original) as [[]|message]; cbn in Hrun; simplify_eq.
    intros Hout.
    destruct (abort_prompt_is_last _ _ _ _ _ _ Hno Hab Hin) as [-> ->].
    exists ((GetAuthToken :: pre0 ++
               [ScanProject (allScanPathsOf o)
                  (path_resolve (process_cwd W) (path o)); CallLLM prompt]) ++ pre).
    split; [|exact Hout]. rewrite Htr. same_trace.
Qed.

(** C3, as the code has it. The Git pre-check runs before the scan, so
    when the scan call fails the run consists of the pre-check (which may
    have created the working branch), the failed scan and the error
    report, and it ends [Failed] with exit code 1: no generation request,
    no review, no change applied, nothing staged. *)
Theorem scan_failure_fails_after_precheck prompt o message :
  backend_scanProject W = Rejected message →
  In (ScanProject (allScanPathsOf o) (path_resolve (process_cwd W) (path o)))
     (trace (generate W prompt o)) →
  ∃ precheck,
    trace (generate W prompt o)
    = GetAuthToken :: precheck
      ++ [ScanProject (allScanPathsOf o) (path_resolve (process_cwd W) (path o));
          ConsoleError ("Error during generation: " +:+ message);
          ProcessExit 1]
    ∧ forallb preCheckEvent precheck = true
    ∧ outcome (generate W prompt o) = Failed.
Proof.
  intros Hscan. unfold generate.
  destruct (generateAction W prompt o) as [[ev o'] c] eqn:Hrun.
  unfold generateAction in Hrun.
  set (root := path_resolve (process_cwd W) (path o)) in *.
  unfold try_catch, generateBody in Hrun. rewrite run_bind in Hrun.
  unfold getAuthenticatedBackendApi in Hrun. rewrite run_emit, run_bind in Hrun.
  unfold await at 1 in Hrun.
  destruct (auth_getAuthToken W) as [[]|m]; cbn [settled negb] in Hrun.
  2, 3: vm_compute in Hrun; simplify_eq; cbn [trace];
        intros [?|[?|[?|[]]]]; discriminate.
  cbn [mret Prog_ret prog_ret app] in Hrun. rewrite run_bind in Hrun.
  pose proof (gitPreCheck_run W prompt root o) as Hpre.
  pose proof (gitPreCheck_events W prompt root o) as Hevents.
  destruct (gitPreCheck W prompt root (yes o) (noGit o) (branch o) o)
    as [[pre0 o1] [[g ob]|x|m]] eqn:Hgit; cbn [fst] in Hevents.
  - rewrite run_emit, run_bind in Hrun. unfold await at 1 in Hrun.
    rewrite Hscan in Hrun. cbn [settled] in Hrun.
    rewrite run_failure in Hrun. simplify_eq. cbn [trace outcome].
    intros _. exists pre0. split_and!; [same_trace|done|done].
  - by destruct Hpre as (_ & _ & _ & []).
  - rewrite run_failure in Hrun. simplify_eq. cbn [trace].
    intros [?|[Hin|Hin]%in_app_iff]; [done| |].
    + by apply (in_forallb _ _ _ Hevents) in Hin.
    + destruct Hin as [?|[?|[]]]; discriminate.
Qed.

(** C7, as the code has it. [applyFileChange] rejects no change: for an
    action other than [add], [modify] and [delete] it logs a warning, makes
    no remote call and returns normally; an [add] or [modify] change
    without [newContent] is sent with the empty string as its content.
    It throws only when the remote call it made was rejected. *)
Theorem applyFileChange_rejects_nothing root k c o :
  (knownAction (action c) = false →
     applyFileChange W root k c o
     = ([CallApplyFileChange c;
         ConsoleWarn ("Unknown action type for change: "
                      +:+ action c +:+ ". Skipping.")],
        o, Normal tt))
  ∧ (action c = "add" → newContent c = None →
     applyFileChange W root k c o
     = ([CallApplyFileChange c; CreateFile (path_resolve root (filePath c)) false ""],
        o, settled (backend_mutation W k)))
  ∧ (action c = "modify" → newContent c = None →
     applyFileChange W root k c o
     = ([CallApplyFileChange c; WriteFile (path_resolve root (filePath c)) ""],
        o, settled (backend_mutation W k)))
  ∧ (∀ message, (applyFileChange W root k c o).2 = Throw message →
     knownAction (action c) = true
     ∧ backend_mutation W k = Rejected message).
Proof.
  split_and!.
  - apply applyFileChange_unknown.
  - intros Ha Hn. rewrite applyFileChange_known by (unfold knownAction; by rewrite Ha).
    unfold requestOf. by rewrite Ha, Hn.
  - intros Ha Hn. rewrite applyFileChange_known by (unfold knownAction; by rewrite Ha).
    unfold requestOf. by rewrite Ha, Hn.
  - intros message. destruct (knownAction (action c)) eqn:Hk.
    + rewrite applyFileChange_known by done. cbn.
      destruct (backend_mutation W k); cbn; intros; by simplify_eq.
    + by rewrite applyFileChange_unknown.
Qed.

(** C8. The apply loop hands every queued change to [applyFileChange], in
    the order of the queue, and always runs to its end: the rejection of
    one change's remote call is caught and reported on the console with
    the change's path and the cause, and the loop goes on with the next
    change. *)
Theorem apply_loop_attempts_every_change root k cs o :
  ∃ ev,
    applyLoop W root k cs o = (ev, o, Normal tt)
    ∧ applyCalls ev = cs
    ∧ ev = concat (imap (λ j c, attempt W root (k + j) c) cs)
    ∧ ∀ j c message,
        cs !! j = Some c →
        knownAction (action c) = true →
        backend_mutation W (k + j) = Rejected message →
        In (ConsoleError ("Failed to apply change for "
                          +:+ filePath c +:+ ": " +:+ message)) ev.
Proof.
  eexists. split_and!; [apply applyLoop_run|apply applyCalls_attempts|done|].
  intros j c message Hj Hk Hm. apply in_concat.
  exists (attempt W root (k + j) c). split.
  - apply list_elem_of_In, list_elem_of_lookup. exists j.
    by rewrite list_lookup_imap, Hj.
  - unfold attempt. rewrite Hk, Hm. cbn. tauto.
Qed.

(** C9. The default branch name is a function of the prompt: the
    lower-cased prompt with every maximal run of characters outside
    [[a-z0-9]] replaced by one ['-'], behind the prefix ["feature/"], cut
    to its first 50 characters. *)
Theorem defaultBranchSuggestion_spec prompt :
  defaultBranchSuggestion prompt
  = substring_to 50 ("feature/" +:+ collapse_runs (toLowerCase prompt))
  ∧ String.concat "" (map snd (runs (toLowerCase prompt))) = toLowerCase prompt
  ∧ forallb well_formed_run (runs (toLowerCase prompt)) = true
  ∧ alternating (runs (toLowerCase prompt)) = true
  ∧ String.length (defaultBranchSuggestion prompt) ≤ 50
  ∧ ∀ prompt', prompt' = prompt →
      defaultBranchSuggestion prompt' = defaultBranchSuggestion prompt.
Proof.
  unfold defaultBranchSuggestion. split_and!.
  - by rewrite replace_non_alnum_runs_collapse.
  - apply runs_concat.
  - apply runs_well_formed.
  - apply runs_alternating.
  - apply substring_to_length.
  - by intros ? ->.
Qed.

End Claims.

(** * Runs evaluated on the sample platform *)

Section Evaluated.
Import Sample.

Lemma sample_reportedUnchanged s : reportedUnchanged s.
Proof.
  right. exists (Diff.common s). split; [|done].
  cbn. unfold coarseDiffLines. by rewrite String.eqb_refl.
Qed.

Lemma sample_reportedAdded s : s ≠ "" → reportedAdded s.
Proof.
  intros Hs. exists (Diff.addition s). split; [|done].
  cbn. unfold coarseDiffLines.
  destruct (String.eqb_spec "" s) as [<-|_]; done.
Qed.

Lemma later_reportedUnchanged_empty :
  reportedUnchanged (H := LaterDiff.platform) "".
Proof. by left. Qed.

Lemma later_reportedAdded s :
  s ≠ "" → reportedAdded (H := LaterDiff.platform) s.
Proof.
  intros Hs. exists (LaterDiff.part s true false). split; [|done].
  cbn. unfold LaterDiff.laterDiffLines.
  destruct (String.eqb_spec "" s) as [<-|_]; done.
Qed.

(** On the later releases an unchanged text that is not empty is not
    reported in the shape the check recognises. *)
Lemma later_unchanged_is_flagged s :
  s ≠ "" → ¬ reportedUnchanged (H := LaterDiff.platform) s.
Proof.
  intros Hs. unfold reportedUnchanged. cbn. unfold LaterDiff.laterDiffLines.
  rewrite String.eqb_refl.
  destruct (String.eqb_spec s "") as [?|_]; [done|].
  intros [?|(part & ? & ? & ?)]; by simplify_eq.
Qed.

Example branch_of_short_prompt :
  defaultBranchSuggestion "Fix it" = "feature/fix-it".
Proof. reflexivity. Qed.

Example branch_of_long_prompt :
  defaultBranchSuggestion
    "Add a Login page!! (v2) -- please and thank you very much"
  = "feature/add-a-login-page-v2-please-and-thank-you-v".
Proof. reflexivity. Qed.

Example branch_of_symbols : defaultBranchSuggestion "***" = "feature/-".
Proof. reflexivity. Qed.

Example split_trailing_newline :
  split_lines (String "a" (String LF "")) = ["a"; ""].
Proof. reflexivity. Qed.

Example diff_of_new_text :
  generateUnifiedDiff "" (String "a" (String LF "b"))
  = String "+" (String " " (String "a" (String LF "+ b"))).
Proof. reflexivity. Qed.

Example diff_of_same_text : generateUnifiedDiff "a" "a" = "".
Proof. reflexivity. Qed.

(** With [--yes] nothing is asked and every change is applied and staged. *)
Example auto_confirm_run :
  trace (generate (world [] [a_ts] (answers [])) "Fix it" (cli true false None))
  = [GetAuthToken; GitCheckIsRepo; GitBranchLocal;
     CallCreateBranch "feature/fix-it";
     GitBranch "feature/fix-it"; GitCheckout "feature/fix-it";
     ScanProject ["."] "/repo"; CallLLM "Fix it";
     CallApplyFileChange a_ts;
     CreateFile "/repo/a.ts" false "console.log(1)";
     CallStageFiles ["/repo/a.ts"]; GitAdd ["a.ts"]].
Proof. by vm_compute. Qed.

(** C1. The code departs from the claim: after [Apply All] at position 0
    the flag [options.yes] is set, yet the loop tests the constant
    [autoConfirm] read before the loop, so the change at position 1 is
    still put to the user, whose [no] then skips it. *)
Theorem apply_all_still_prompts :
  let W := world [] [a_ts; b_ts] (answers [All; No]) in
  let r := generate W "Fix it" (cli false true None) in
  inquirer_confirm W 0 = All
  ∧ yes (finalOptions r) = true
  ∧ trace r = [GetAuthToken; ScanProject ["."] "/repo"; CallLLM "Fix it";
               PromptConfirm 0 a_ts; PromptConfirm 1 b_ts;
               CallApplyFileChange a_ts;
               CreateFile "/repo/a.ts" false "console.log(1)"]
  ∧ applyCalls (trace r) = [a_ts].
Proof. by vm_compute. Qed.

Lemma abort_applies_nothing_witness :
  let W := world [] [a_ts; b_ts] (answers [Yes; Abort]) in
  let r := generate W "Fix it" (cli false false None) in
  In (PromptConfirm 1 b_ts) (trace r)
  ∧ inquirer_confirm W 1 = Abort
  ∧ applyCalls (trace r) = []
  ∧ (∀ e, In e (trace r) → remoteMutation e = false)
  ∧ outcome r ≠ Done.
Proof.
  intros W r.
  assert (Hin : In (PromptConfirm 1 b_ts) (trace r)) by (vm_compute; tauto).
  split; [exact Hin|]. split; [reflexivity|].
  exact (abort_applies_nothing W "Fix it" (cli false false None) 1 b_ts
           Hin eq_refl).
Defined.

(** C3 fails as stated: with [--yes] in a repository the working branch is
    created by the pre-check, and the scan fails afterwards. *)
Lemma scan_failure_after_branch_creation :
  let W := with_scan (Rejected "fetch failed") (world [] [] (answers [])) in
  let r := generate W "Fix it" (cli true false None) in
  backend_scanProject W = Rejected "fetch failed"
  ∧ outcome r = Failed
  ∧ trace r = [GetAuthToken; GitCheckIsRepo; GitBranchLocal;
               CallCreateBranch "feature/fix-it";
               GitBranch "feature/fix-it"; GitCheckout "feature/fix-it";
               ScanProject ["."] "/repo";
               ConsoleError "Error during generation: fetch failed";
               ProcessExit 1].
Proof. by vm_compute. Qed.

Lemma scan_failure_fails_after_precheck_witness :
  let W := with_scan (Rejected "fetch failed") (world [] [] (answers [])) in
  let r := generate W "Fix it" (cli true false None) in
  backend_scanProject W = Rejected "fetch failed"
  ∧ In (ScanProject ["."] "/repo") (trace r)
  ∧ ∃ precheck,
      trace r = GetAuthToken :: precheck
                ++ [ScanProject ["."] "/repo";
                    ConsoleError "Error during generation: fetch failed";
                    ProcessExit 1]
      ∧ forallb preCheckEvent precheck = true
      ∧ outcome r = Failed.
Proof.
  intros W r.
  assert (Hin : In (ScanProject ["."] "/repo") (trace r)) by (vm_compute; tauto).
  split; [reflexivity|]. split; [exact Hin|].
  exact (scan_failure_fails_after_precheck W "Fix it" (cli true false None)
           "fetch failed" eq_refl Hin).
Defined.

Lemma identical_modify_is_skipped_witness :
  let files := [scanned "/repo/a.ts" "x"] in
  let c := modify "/repo/a.ts" "x" in
  let W := world files [c] (answers [Yes]) in
  let r := generate W "Fix it" (cli false false None) in
  reportedUnchanged "x"
  ∧ generateUnifiedDiff "x" "x" = ""
  ∧ diffOf (originalFileContentsOf files) c = ""
  ∧ (∀ i, ¬ In (PromptConfirm i c) (trace r))
  ∧ ¬ In (CallApplyFileChange c) (trace r).
Proof.
  intros files c W r. split; [exact (sample_reportedUnchanged "x")|].
  apply (identical_modify_is_skipped W "Fix it" (cli false false None) files c "x").
  - exact (sample_reportedUnchanged "x").
  - reflexivity.
  - reflexivity.
  - by vm_compute.
  - reflexivity.
Defined.

(** C4. The code departs from the claim where the installed [diff]
    package is a release after 5.x: the unchanged part of a text that is
    not empty then carries [added: false] and [removed: false], the test
    [=== undefined] of [generateUnifiedDiff] fails, and the text comes
    back rendered as context lines instead of the empty diff its
    documentation promises for identical contents.  A [modify] whose new
    content is the scanned content is then shown and asked about, and
    written on [yes]; with [--yes] it is written unasked. *)
Theorem identical_modify_is_asked_and_written :
  let files := [scanned "/repo/a.ts" "x"] in
  let c := modify "/repo/a.ts" "x" in
  let W := world files [c] (answers [Yes]) in
  let asked := generate (H := LaterDiff.platform) W "Fix it"
                 (cli false false None) in
  let unasked := generate (H := LaterDiff.platform) W "Fix it"
                   (cli true false None) in
  originalFileContentsOf files !! filePath c = newContent c
  ∧ diffLines (Platform := LaterDiff.platform) "x" "x"
    = [{| Diff.value := "x"; Diff.added := Some false;
          Diff.removed := Some false |}]
  ∧ generateUnifiedDiff (H := LaterDiff.platform) "x" "x" = "  x"
  ∧ In (PromptConfirm 0 c) (trace asked)
  ∧ applyCalls (trace asked) = [c]
  ∧ In (WriteFile "/repo/a.ts" "x") (trace asked)
  ∧ applyCalls (trace unasked) = [c]
  ∧ In (WriteFile "/repo/a.ts" "x") (trace unasked).
Proof.
  split_and!; try (by vm_compute); vm_compute; tauto.
Qed.

(** C5 fails as stated: the remote call for the only confirmed change is
    rejected, and its path is staged all the same. *)
Lemma failed_apply_is_still_staged :
  let W := with_mutation (λ _, Rejected "boom")
             (world [] [a_ts] (answers [])) in
  let r := generate W "Fix it" (cli true false None) in
  In (CallStageFiles ["/repo/a.ts"]) (trace r)
  ∧ In (ConsoleError "Failed to apply change for /repo/a.ts: boom") (trace r)
  ∧ appliedPaths W (applyCalls (trace r)) = []
  ∧ ¬ (∀ ps, In (CallStageFiles ps) (trace r) →
         ps = appliedPaths W (applyCalls (trace r))).
Proof.
  intros W r.
  assert (Hin : In (CallStageFiles ["/repo/a.ts"]) (trace r)) by (vm_compute; tauto).
  split_and!; [done|vm_compute; tauto|by vm_compute|].
  intros Hall. by apply Hall in Hin.
Qed.

Lemma staged_paths_are_confirmed_paths_witness :
  let W := with_mutation (λ _, Rejected "boom")
             (world [] [a_ts] (answers [])) in
  let r := generate W "Fix it" (cli true false None) in
  In (CallStageFiles ["/repo/a.ts"]) (trace r)
  ∧ ["/repo/a.ts"] = map filePath (applyCalls (trace r)).
Proof.
  intros W r.
  assert (Hin : In (CallStageFiles ["/repo/a.ts"]) (trace r)) by (vm_compute; tauto).
  split; [exact Hin|].
  exact (staged_paths_are_confirmed_paths W "Fix it" (cli true false None)
           ["/repo/a.ts"] Hin).
Defined.

(** C6 fails as stated: the user aborts on the working branch, the
    checkout of the original branch errors, and the run ends [Failed]. *)
Lemma failed_revert_fails_the_run :
  let W := with_checkout checkout_main_fails
             (world [] [a_ts] (answers [Abort])) in
  let r := generate W "Fix it" (cli false false None) in
  inquirer_confirm W 0 = Abort
  ∧ outcome r = Failed
  ∧ trace r = [GetAuthToken; GitCheckIsRepo; GitBranchLocal; PromptProceedGit;
               PromptBranchName "feature/fix-it";
               CallCreateBranch "feature/fix-it";
               GitBranch "feature/fix-it"; GitCheckout "feature/fix-it";
               ScanProject ["."] "/repo"; CallLLM "Fix it";
               PromptConfirm 0 a_ts; GitCheckout "main";
               ConsoleError "Error during generation: error: Your local changes would be overwritten by checkout";
               ProcessExit 1].
Proof. by vm_compute. Qed.

Lemma abort_checks_out_original_branch_witness :
  let W := with_checkout checkout_main_fails
             (world [] [a_ts] (answers [Abort])) in
  let r := generate W "Fix it" (cli false false None) in
  In (PromptConfirm 0 a_ts) (trace r)
  ∧ In (CallCreateBranch "feature/fix-it") (trace r)
  ∧ ∃ before,
      trace r
      = before ++ [PromptConfirm 0 a_ts; GitCheckout "main";
                   ConsoleError "Error during generation: error: Your local changes would be overwritten by checkout";
                   ProcessExit 1]
      ∧ outcome r = Failed.
Proof.
  intros W r.
  assert (Hin : In (PromptConfirm 0 a_ts) (trace r)) by (vm_compute; tauto).
  assert (Hbr : In (CallCreateBranch "feature/fix-it") (trace r))
    by (vm_compute; tauto).
  split; [exact Hin|]. split; [exact Hbr|].
  exact (abort_checks_out_original_branch W "Fix it" (cli false false None)
           0 a_ts "feature/fix-it" "main" Hin eq_refl Hbr
           ltac:(discriminate) eq_refl ltac:(discriminate)).
Defined.

(** C7 fails as stated: a change with the action ["rename"] is warned about
    and skipped, and an [add] without content creates an empty file;
    neither is rejected with an error. *)
Lemma unknown_action_is_skipped :
  let W := world [] [] (answers []) in
  let o := cli true true None in
  let rename := {| filePath := "/repo/a.ts"; action := "rename";
                   newContent := None; reason := None |} in
  let bare := {| filePath := "/repo/a.ts"; action := "add";
                 newContent := None; reason := None |} in
  applyFileChange W "/repo" 0 rename o
  = ([CallApplyFileChange rename;
      ConsoleWarn "Unknown action type for change: rename. Skipping."],
     o, Normal tt)
  ∧ applyFileChange W "/repo" 0 bare o
    = ([CallApplyFileChange bare; CreateFile "/repo/a.ts" false ""], o, Normal tt).
Proof. by vm_compute. Qed.

Lemma unscanned_modify_diffs_against_empty_witness :
  let files := [scanned "/repo/a.ts" "x"] in
  let ofc := originalFileContentsOf files in
  let c := modify "/repo/new.ts" "ab" in
  let bare := modify "/repo/new.ts" "" in
  let o := cli false false None in
  let r := generate (H := LaterDiff.platform)
             (world files [bare] (answers [Yes])) "Fix it" o in
  (diffOf ofc c = generateUnifiedDiff "" "ab" ∧ diffOf ofc c = "+ ab")
  ∧ (diffOf (H := LaterDiff.platform) ofc c
     = generateUnifiedDiff (H := LaterDiff.platform) "" "ab"
     ∧ diffOf (H := LaterDiff.platform) ofc c = "+ ab")
  ∧ (diffOf (H := LaterDiff.platform) ofc bare = ""
     ∧ (∀ i, ¬ In (PromptConfirm i bare) (trace r))
     ∧ ¬ In (CallApplyFileChange bare) (trace r)).
Proof.
  intros files ofc c bare o r.
  assert (Habs : Forall (λ f, ScannedFile.filePath f ≠ "/repo/new.ts") files)
    by (repeat constructor; discriminate).
  split; [split|split; [split|]].
  - exact (proj1 (unscanned_modify_diffs_against_empty
                    (world files [c] (answers [Yes])) "Fix it" o files c
                    eq_refl eq_refl Habs)).
  - exact (proj1 (proj2 (unscanned_modify_diffs_against_empty
                           (world files [c] (answers [Yes])) "Fix it" o files c
                           eq_refl eq_refl Habs))
             (sample_reportedAdded "ab" ltac:(discriminate))).
  - exact (proj1 (unscanned_modify_diffs_against_empty
                    (H := LaterDiff.platform)
                    (world files [c] (answers [Yes])) "Fix it" o files c
                    eq_refl eq_refl Habs)).
  - exact (proj1 (proj2 (unscanned_modify_diffs_against_empty
                           (H := LaterDiff.platform)
                           (world files [c] (answers [Yes])) "Fix it" o files c
                           eq_refl eq_refl Habs))
             (later_reportedAdded "ab" ltac:(discriminate))).
  - exact (proj2 (proj2 (unscanned_modify_diffs_against_empty
                           (H := LaterDiff.platform)
                           (world files [bare] (answers [Yes])) "Fix it" o
                           files bare eq_refl eq_refl Habs))
             eq_refl later_reportedUnchanged_empty).
Defined.

End Evaluated.

(** * Further properties of the workflow *)

Section PhaseFacts.
Context `{Platform} (W : World).

Lemma stageFiles_cases root ps o :
  stageFiles W root ps o
  = match git_add W (map (path_relative root) ps) with
    | Resolved _ =>
        ([CallStageFiles ps; GitAdd (map (path_relative root) ps)], o, Normal tt)
    | Rejected message =>
        ([CallStageFiles ps; GitAdd (map (path_relative root) ps);
          ConsoleError ("Git: Failed to stage files: " +:+ message)],
         o, Throw message)
    end.
Proof.
  unfold stageFiles. rewrite run_emit. unfold try_catch. rewrite run_emit.
  unfold await. by destruct (git_add W _) as [[]|m].
Qed.

(** The action of [generate] is its phases run one after the other. *)
Lemma generateAction_phases prompt o :
  generateAction W prompt o = generatePhases W prompt o.
Proof.
  unfold generateAction, generatePhases.
  set (root := path_resolve (process_cwd W) (path o)).
  unfold try_catch, generateBody. rewrite run_bind.
  unfold getAuthenticatedBackendApi. rewrite run_emit, run_bind.
  unfold await at 1.
  destruct (auth_getAuthToken W) as [[]|m]; cbn [settled negb];
    [|reflexivity|by rewrite run_failure].
  cbn [mret Prog_ret prog_ret app]. rewrite run_bind.
  destruct (gitPreCheck W prompt root (yes o) (noGit o) (branch o) o)
    as [[pre0 o1] [[g ob]|x|m]]; [|done|by rewrite run_failure].
  rewrite run_emit, run_bind. unfold await at 1.
  destruct (backend_scanProject W) as [files|m]; cbn [settled];
    [|rewrite run_failure; unfold failed; f_equal; f_equal; same_trace].
  cbn [app]. rewrite run_emit, run_bind. unfold await at 1.
  destruct (backend_callLLM W) as [llm|m]; cbn [settled];
    [|rewrite run_failure; unfold failed; f_equal; f_equal; same_trace].
  cbn [app].
  destruct (changes llm) as [|ch0 chs] eqn:Hchs; [done|].
  rewrite <- Hchs. clear Hchs. rewrite run_bind.
  destruct (reviewLoop W (yes o) g ob (originalFileContentsOf files) 0
              (changes llm) [] [] o1) as [[rev o2] [[cta fma]|x|m]];
    cbn [afterReview].
  - destruct cta as [|ch cta].
    + rewrite run_bind.
      destruct (revertBranch W g ob o2) as [[evr o3] [[]|x|m]]; cbn;
        rewrite ?run_failure; unfold failed; f_equal; f_equal; same_trace.
    + rewrite run_bind, applyLoop_run. rewrite run_bind.
      set (attempts := concat (imap _ (ch :: cta))). clearbody attempts.
      unfold options at 1.
      destruct (g && negb (noGit o2)); unfold when.
      * rewrite stageFiles_cases.
        destruct (git_add W _) as [[]|m]; cbn;
          rewrite ?run_failure; unfold failed; f_equal; f_equal; same_trace.
      * cbn. f_equal. f_equal. same_trace.
  - cbn. f_equal. f_equal. same_trace.
  - rewrite run_failure. unfold failed. f_equal. f_equal. same_trace.
Qed.

End PhaseFacts.

Section ReviewModes.
Context `{Platform} (W : World).

Lemma prompts_app tr1 tr2 : prompts (tr1 ++ tr2) = prompts tr1 ++ prompts tr2.
Proof. apply omap_app. Qed.

Lemma prompts_shownFor ofc c : prompts (shownFor ofc c) = [].
Proof. unfold shownFor. by destruct (String.eqb _ _). Qed.

Lemma applyCalls_ask tr : forallb askEvent tr = true → applyCalls tr = [].
Proof.
  induction tr as [|e tr IH]; [done|]. cbn [forallb].
  intros [He Htr]%andb_prop. destruct e; try done; by apply IH.
Qed.

Lemma shownFor_ask ofc c : forallb askEvent (shownFor ofc c) = true.
Proof. unfold shownFor. by destruct (String.eqb _ _). Qed.

(** Without abort among the answers from [pos] on (or with [--yes]) the
    loop runs to its end: it asks about every change that is not an empty
    [modify], unless [--yes], and queues those answered [yes] or [all]. *)
Lemma reviewLoop_selected auto g ob ofc batch : ∀ pos cta fma o,
  (auto = true ∨ ∀ i, pos ≤ i → inquirer_confirm W i ≠ Abort) →
  ∃ ev o',
    reviewLoop W auto g ob ofc pos batch cta fma o
    = (ev, o',
       Normal (cta ++ (selected ofc (λ i, auto || accepts W i) pos batch).*2,
               fma ++ map filePath
                        (selected ofc (λ i, auto || accepts W i) pos batch).*2))
    ∧ forallb askEvent ev = true
    ∧ prompts ev = (if auto then [] else selected ofc (λ _, true) pos batch)
    ∧ noGit o' = noGit o ∧ branch o' = branch o.
Proof.
  induction batch as [|c rest IH]; intros pos cta fma o Hno.
  { exists [], o. cbn. rewrite !app_nil_r. split_and!; try done. by destruct auto. }
  rewrite reviewLoop_cons. cbv zeta. cbn [selected].
  assert (Hno' : auto = true ∨ ∀ i, S pos ≤ i → inquirer_confirm W i ≠ Abort).
  { destruct Hno as [?|Hno]; [by left|right]. intros i Hi. apply Hno. lia. }
  destruct (noEffectiveChange ofc c) eqn:Hnoop; cbn [negb andb app].
  { apply IH, Hno'. }
  destruct auto; cbn [orb].
  { destruct (IH (S pos) (cta ++ [c]) (fma ++ [filePath c]) o Hno')
      as (ev & o' & -> & Hev & Hpr & Hn & Hb).
    exists (shownFor ofc c ++ ev), o'. cbn [after fmap list_fmap app map].
    rewrite <- !app_assoc. cbn [app].
    split_and!; try done.
    - rewrite forallb_app. by rewrite shownFor_ask.
    - by rewrite prompts_app, prompts_shownFor. }
  assert (Hans : inquirer_confirm W pos ≠ Abort).
  { destruct Hno as [?|Hno]; [done|]. apply Hno. lia. }
  unfold accepts at 1 3.
  destruct (inquirer_confirm W pos) eqn:Hc; [| | |done].
  - destruct (IH (S pos) (cta ++ [c]) (fma ++ [filePath c]) o Hno')
      as (ev & o' & -> & Hev & Hpr & Hn & Hb).
    eexists _, o'. cbn [after fmap list_fmap app map].
    rewrite <- !app_assoc. cbn [app].
    split_and!; try done.
    + rewrite forallb_app, shownFor_ask. cbn. by rewrite Hev.
    + rewrite prompts_app, prompts_shownFor. cbn. by rewrite <- Hpr.
  - destruct (IH (S pos) cta fma o Hno')
      as (ev & o' & -> & Hev & Hpr & Hn & Hb).
    eexists _, o'. cbn [after fmap list_fmap app map].
    rewrite <- !app_assoc. cbn [app].
    split_and!; try done.
    + rewrite forallb_app, shownFor_ask. cbn. by rewrite Hev.
    + rewrite prompts_app, prompts_shownFor. cbn. by rewrite <- Hpr.
  - destruct (IH (S pos) (cta ++ [c]) (fma ++ [filePath c]) (set_yes true o) Hno')
      as (ev & o' & -> & Hev & Hpr & Hn & Hb).
    eexists _, o'. cbn [after fmap list_fmap app map].
    rewrite <- !app_assoc. cbn [app].
    split_and!; try done.
    + rewrite forallb_app, shownFor_ask. cbn. by rewrite Hev.
    + rewrite prompts_app, prompts_shownFor. cbn. by rewrite <- Hpr.
Qed.

(** The queue the loop builds is taken from the batch, in order. *)
Lemma reviewLoop_sublist auto g ob ofc batch : ∀ pos cta fma o ev o' cta' fma',
  reviewLoop W auto g ob ofc pos batch cta fma o = (ev, o', Normal (cta', fma')) →
  ∃ kept, cta' = cta ++ kept ∧ sublist kept batch.
Proof.
  induction batch as [|c rest IH]; intros pos cta fma o ev o' cta' fma'.
  { cbn. intros [= <- <- <- <-]. exists []. by rewrite app_nil_r. }
  rewrite reviewLoop_cons. cbv zeta.
  assert (Hskip : ∀ ev1 o1,
            after ev1 (reviewLoop W auto g ob ofc (S pos) rest cta fma o1)
            = (ev, o', Normal (cta', fma')) →
            ∃ kept, cta' = cta ++ kept ∧ sublist kept (c :: rest)).
  { intros ev1 o1 Hr.
    destruct (reviewLoop W auto g ob ofc (S pos) rest cta fma o1)
      as [[ev3 o3] [[cta3 fma3]|x|m]] eqn:Hrec; cbn in Hr; simplify_eq.
    apply IH in Hrec as (kept & -> & Hsub). exists kept. split; [done|].
    by apply sublist_cons. }
  assert (Hkeep : ∀ ev1 o1,
            after ev1 (reviewLoop W auto g ob ofc (S pos) rest (cta ++ [c])
                         (fma ++ [filePath c]) o1)
            = (ev, o', Normal (cta', fma')) →
            ∃ kept, cta' = cta ++ kept ∧ sublist kept (c :: rest)).
  { intros ev1 o1 Hr.
    destruct (reviewLoop W auto g ob ofc (S pos) rest (cta ++ [c])
                (fma ++ [filePath c]) o1)
      as [[ev3 o3] [[cta3 fma3]|x|m]] eqn:Hrec; cbn in Hr; simplify_eq.
    apply IH in Hrec as (kept & -> & Hsub). exists (c :: kept).
    rewrite <- app_assoc. split; [done|]. by apply sublist_skip. }
  destruct (noEffectiveChange ofc c).
  { intros Hr. apply (Hskip [] o). unfold after.
    by destruct (reviewLoop _ _ _ _ _ _ _ _ _ _) as [[??]?]. }
  destruct auto; [apply Hkeep|].
  destruct (inquirer_confirm W pos); [apply Hkeep|apply Hskip|apply Hkeep|].
  rewrite run_bind, revertBranch_run.
  destruct (g && negb (noGit o) && truthy (branch o) && truthy ob);
    [destruct (git_checkout W (default "" ob))|]; cbn; intros; simplify_eq.
Qed.

(** Outside a working branch the loop never calls Git. *)
Lemma reviewLoop_no_git auto g ob ofc batch : ∀ pos cta fma o,
  g && negb (noGit o) = false →
  forallb askEvent (reviewLoop W auto g ob ofc pos batch cta fma o).1.1 = true.
Proof.
  induction batch as [|c rest IH]; intros pos cta fma o Hg; [done|].
  rewrite reviewLoop_cons. cbv zeta.
  assert (Hnext : ∀ ev1 cta1 fma1 o1, forallb askEvent ev1 = true →
            noGit o1 = noGit o →
            forallb askEvent
              (after ev1 (reviewLoop W auto g ob ofc (S pos) rest cta1 fma1 o1)).1.1
            = true).
  { intros ev1 cta1 fma1 o1 Hev Hn.
    specialize (IH (S pos) cta1 fma1 o1). rewrite Hn in IH. specialize (IH Hg).
    destruct (reviewLoop W auto g ob ofc (S pos) rest cta1 fma1 o1) as [[ev3 o3] r].
    cbn in *. by rewrite forallb_app, Hev, IH. }
  assert (Hshown : forallb askEvent (shownFor ofc c ++ [PromptConfirm pos c]) = true).
  { by rewrite forallb_app, shownFor_ask. }
  destruct (noEffectiveChange ofc c); [by apply IH|].
  destruct auto; [apply Hnext; [apply shownFor_ask|done]|].
  destruct (inquirer_confirm W pos); try (apply Hnext; done).
  rewrite run_bind, revertBranch_run, Hg. cbn. by rewrite app_nil_r.
Qed.

End ReviewModes.

(** ** Whole runs *)

Section AttemptFacts.
Context `{Platform} (W : World).

Lemma prompts_apply tr : forallb applyEvent tr = true → prompts tr = [].
Proof.
  induction tr as [|e tr IH]; [done|]. cbn [forallb].
  intros [He Htr]%andb_prop. destruct e; try done; by apply IH.
Qed.

Lemma mutations_app tr1 tr2 :
  List.filter remoteMutation (tr1 ++ tr2)
  = List.filter remoteMutation tr1 ++ List.filter remoteMutation tr2.
Proof. apply List.filter_app. Qed.

Lemma attempts_mutations root cs : ∀ k,
  List.filter remoteMutation
    (concat (imap (λ j c, attempt W root (k + j) c) cs))
  = map (requestOf root) (List.filter (λ c, knownAction (action c)) cs).
Proof.
  induction cs as [|c cs IH]; intros k; [done|].
  cbn [imap concat List.filter].
  rewrite mutations_app, imap_attempt_shift, IH.
  unfold attempt. destruct (knownAction (action c)) eqn:Hk; [|done].
  cbn [map]. unfold requestOf.
  destruct (backend_mutation W (k + 0));
    destruct (String.eqb (action c) "add");
    destruct (String.eqb (action c) "modify"); done.
Qed.

Lemma no_mutation tr (P : Event → bool) :
  (∀ e, P e = true → remoteMutation e = false) →
  forallb P tr = true → List.filter remoteMutation tr = [].
Proof.
  intros HP. induction tr as [|e tr IH]; [done|]. cbn [forallb List.filter].
  intros [He Htr]%andb_prop. rewrite (HP e He). by apply IH.
Qed.

End AttemptFacts.

Ltac split_cases :=
  repeat (cbn -[includes defaultBranchSuggestion] in *;
    match goal with
    | |- context [match ?x with _ => _ end] =>
        lazymatch x with
        | context [match _ with _ => _ end] => fail
        | _ => destruct x eqn:?
        end
    end).

Ltac unfold_precheck :=
  unfold gitPreCheck, isGitRepository, getCurrentBranch, createBranch,
    when, try_catch, options, update, emit, await, throw, settled;
  unfold mbind, mret, Prog_bind, Prog_ret, prog_bind, prog_ret.

(** The leaves of a run: every way [generatePhases] can end, with the
    equations of the phases that ran. *)
Ltac run_leaves W prompt o :=
  unfold generatePhases;
  destruct (auth_getAuthToken W) as [[]|?message] eqn:Hauth;
  [ pose proof (gitPreCheck_run W prompt
                  (path_resolve (process_cwd W) (path o)) o) as Hpre;
    pose proof (gitPreCheck_events W prompt
                  (path_resolve (process_cwd W) (path o)) o) as Hpreev;
    destruct (gitPreCheck W prompt (path_resolve (process_cwd W) (path o))
                (yes o) (noGit o) (branch o) o)
      as [[pre0 o1] [[g ob]|?x|?message]] eqn:Hgit;
    cbn [fst] in Hpreev;
    [ destruct (backend_scanProject W) as [files|?message] eqn:Hscan;
      [ destruct (backend_callLLM W) as [llm|?message] eqn:Hllm;
        [ destruct (changes llm) as [|ch0 chs] eqn:Hchs;
          [ | rewrite <- Hchs;
              pose proof (reviewLoop_run W (yes o) g ob
                            (originalFileContentsOf files) (changes llm)
                            0 [] [] o1) as Hrv;
              destruct (reviewLoop W (yes o) g ob
                          (originalFileContentsOf files) 0 (changes llm)
                          [] [] o1)
                as [[rev o2] [[cta fma]|?x|?message]] eqn:Hrev;
              destruct Hrv as (Hrevev & Hrn & Hrb & Hrp & Hrc);
              cbn [afterReview];
              [ destruct cta as [|ch cta];
                [ rewrite revertBranch_run;
                  destruct (g && negb (noGit o2) && truthy (branch o2)
                            && truthy ob) eqn:Hguard;
                  [ destruct (git_checkout W (default "" ob))
                      as [[]|?message] eqn:Hco; cbn [settled] | ]
                | pose proof (attempts_apply W
                      (path_resolve (process_cwd W) (path o)) (ch :: cta) 0)
                    as Hattev;
                  pose proof (applyCalls_attempts W
                      (path_resolve (process_cwd W) (path o)) (ch :: cta) 0)
                    as Hattcalls;
                  pose proof (attempts_mutations W
                      (path_resolve (process_cwd W) (path o)) (ch :: cta) 0)
                    as Hattmut;
                  cbn [plus] in Hattev, Hattcalls, Hattmut;
                  set (attempts := concat (imap _ (ch :: cta))) in *;
                  clearbody attempts;
                  destruct (g && negb (noGit o2)) eqn:Hguard;
                  [ rewrite stageFiles_cases;
                    destruct (git_add W (map (path_relative
                                (path_resolve (process_cwd W) (path o))) fma))
                      as [[]|?message] eqn:Hadd | ] ]
              | | ] ]
        | ]
      | ]
    | by destruct Hpre as (_ & _ & _ & [])
    | ]
  | | ].

(** Membership in the trace of a leaf, split along the phases; what a
    phase cannot produce is ruled out. *)
Ltac in_leaf Hin :=
  repeat first
    [ apply in_app_or in Hin as [Hin|Hin]
    | apply in_inv in Hin as [Hin|Hin]
    | apply in_nil in Hin; destruct Hin ];
  try discriminate Hin;
  try match goal with
      | Hp : forallb preCheckEvent ?tr = true, Hi : In _ ?tr |- _ =>
          by apply (in_forallb _ _ _ Hp) in Hi
      | Hp : forallb reviewEvent ?tr = true, Hi : In _ ?tr |- _ =>
          by apply (in_forallb _ _ _ Hp) in Hi
      | Hp : forallb applyEvent ?tr = true, Hi : In _ ?tr |- _ =>
          by apply (in_forallb _ _ _ Hp) in Hi
      end.

Section MorePreCheckFacts.
Context `{Platform} (W : World).

Lemma gitPreCheck_not_repo prompt root o message :
  noGit o = false → git_checkIsRepo W = Rejected message →
  gitPreCheck W prompt root (yes o) (noGit o) (branch o) o
  = ([GitCheckIsRepo], set_noGit true o, Normal (false, None)).
Proof. intros -> Hrepo. unfold_precheck. by rewrite Hrepo. Qed.

Lemma gitPreCheck_auto_asks_nothing prompt root o e :
  yes o = true →
  In e (gitPreCheck W prompt root (yes o) (noGit o) (branch o) o).1.1 →
  promptEvent e = false.
Proof.
  intros Hyes. rewrite Hyes. unfold_precheck. split_cases.
  all: cbn; intros Hin;
    repeat (destruct Hin as [Hin|Hin]; [by subst|]); by destruct Hin.
Qed.

Lemma gitPreCheck_branch_name prompt root o b :
  In (CallCreateBranch b)
     (gitPreCheck W prompt root (yes o) (noGit o) (branch o) o).1.1 →
  noGit o = false ∧ b = workingBranchName W prompt o.
Proof.
  unfold workingBranchName. unfold_precheck. split_cases.
  all: cbn; intros Hin;
    repeat (destruct Hin as [Hin|Hin]; [try discriminate Hin|]);
    try (by destruct Hin).
  all: simplify_eq.
  all: repeat match goal with
       | Hn : negb _ = true |- _ => apply negb_true_iff in Hn
       | Hn : negb _ = false |- _ => apply negb_false_iff in Hn
       | Hn : _ && _ = true |- _ => apply andb_prop in Hn as [??]
       | Hn : _ && _ = false |- _ => apply andb_false_iff in Hn as [?|?]
       end.
  all: try done; try congruence.
Qed.

End MorePreCheckFacts.

Section WholeRuns.
Context `{Platform} (W : World).

Lemma generate_trace prompt o :
  trace (generate W prompt o) = (generatePhases W prompt o).1.1.
Proof.
  unfold generate. rewrite generateAction_phases.
  by destruct (generatePhases W prompt o) as [[ev o'] [[]|x|m]].
Qed.

Lemma generate_outcome prompt o :
  outcome (generate W prompt o)
  = match (generatePhases W prompt o).2 with
    | Halt x => x
    | _ => Done
    end.
Proof.
  unfold generate. rewrite generateAction_phases.
  by destruct (generatePhases W prompt o) as [[ev o'] [[]|x|m]].
Qed.

Lemma exit_not_precheck tr code :
  forallb preCheckEvent tr = true → ¬ In (ProcessExit code) tr.
Proof. intros Htr Hin. by apply (in_forallb _ _ _ Htr) in Hin. Qed.

Lemma exit_not_review tr code :
  forallb reviewEvent tr = true → ¬ In (ProcessExit code) tr.
Proof. intros Htr Hin. by apply (in_forallb _ _ _ Htr) in Hin. Qed.

Lemma exit_not_apply tr code :
  forallb applyEvent tr = true → ¬ In (ProcessExit code) tr.
Proof. intros Htr Hin. by apply (in_forallb _ _ _ Htr) in Hin. Qed.

Lemma last_two {A} (l : list A) a b : last (l ++ [a; b]) = Some b.
Proof.
  change (l ++ [a; b]) with (l ++ [a] ++ [b]).
  by rewrite (assoc_L (++) l [a] [b]), last_snoc.
Qed.

Lemma review_halts_aborted auto g ob ofc batch pos cta fma o rev o2 x :
  reviewLoop W auto g ob ofc pos batch cta fma o = (rev, o2, Halt x) →
  x = Aborted.
Proof.
  intros Hrev.
  pose proof (reviewLoop_run W auto g ob ofc batch pos cta fma o) as Hr.
  rewrite Hrev in Hr.
  destruct Hr as (_ & _ & _ & _ & pre & i & c & evr & oi & _ & _ & _ & _ & _ & Hrun).
  rewrite run_bind, revertBranch_run in Hrun.
  destruct (g && negb (noGit oi) && truthy (branch oi) && truthy ob);
    [destruct (git_checkout W (default "" ob))|]; cbn in Hrun; by simplify_eq.
Qed.

(** X1. The run ends [Failed] exactly when [process.exit(1)] was called; the
    exit code is never another one, and nothing follows the call. *)
Theorem failed_iff_exit prompt o :
  (outcome (generate W prompt o) = Failed
   ↔ In (ProcessExit 1) (trace (generate W prompt o)))
  ∧ ∀ code, In (ProcessExit code) (trace (generate W prompt o)) →
      code = 1 ∧ last (trace (generate W prompt o)) = Some (ProcessExit 1).
Proof.
  rewrite generate_trace, generate_outcome.
  run_leaves W prompt o.
  all: try (apply review_halts_aborted in Hrev as ->).
  all: cbn [fst snd failed].
  all: split; [split; [try done; intros _|try done; intros Hin]
              |intros code Hin].
  all: try (rewrite in_app_iff; right; cbn; tauto).
  all: try (cbn; tauto).
  all: try (exfalso; in_leaf Hin; fail).
  all: try (split; [in_leaf Hin; by simplify_eq|]).
  all: try apply last_two.
  all: try done.
Qed.

(** X4. Outside a Git repository the only call into Git is the repository
    check itself. *)
Theorem outside_repository_only_checks prompt o message e :
  noGit o = false →
  git_checkIsRepo W = Rejected message →
  In e (trace (generate W prompt o)) →
  gitEvent e = true → e = GitCheckIsRepo.
Proof.
  intros Hng Hrepo. rewrite generate_trace.
  run_leaves W prompt o.
  all: try (rewrite (gitPreCheck_not_repo W _ _ _ message) in Hgit by done;
            simplify_eq).
  all: try match goal with
           | Hrev : reviewLoop W ?a false ?ob ?ofc ?p ?b ?c ?f ?o0 = _ |- _ =>
               pose proof (reviewLoop_no_git W a false ob ofc b p c f o0 eq_refl)
                 as Hask;
               rewrite Hrev in Hask; cbn [fst] in Hask
           end.
  all: cbn [fst snd failed app]; intros Hin Hgit; in_leaf Hin;
       try (by subst).
  all: try (apply (in_forallb _ _ _ Hask) in Hin; by destruct e).
  all: try (apply (in_forallb _ _ _ Hattev) in Hin; by destruct e).
Qed.

(** X8. With [--yes] the command asks nothing: no Git question, no branch
    name, no decision about a change. *)
Theorem yes_asks_nothing prompt o e :
  yes o = true →
  In e (trace (generate W prompt o)) →
  promptEvent e = false.
Proof.
  intros Hyes. rewrite generate_trace.
  pose proof (gitPreCheck_auto_asks_nothing W prompt
                (path_resolve (process_cwd W) (path o)) o) as Hquiet.
  run_leaves W prompt o.
  all: try (rewrite Hgit in Hquiet; cbn [fst] in Hquiet).
  all: cbn [fst snd failed app]; intros Hin; in_leaf Hin; try (by subst).
  all: try (by eapply Hquiet).
  all: try (apply (in_forallb _ _ _ Hattev) in Hin; by destruct e).
  all: pose proof (in_forallb _ _ _ Hrevev Hin) as Hclass;
       destruct e; try done;
       apply Hrp in Hin as (Hauto & _); congruence.
Qed.

Lemma applyCalls_precheck tr :
  forallb preCheckEvent tr = true → applyCalls tr = [].
Proof.
  induction tr as [|e tr IH]; [done|]. cbn [forallb].
  intros [He Htr]%andb_prop. destruct e; try done; by apply IH.
Qed.

Lemma prompts_precheck tr : forallb preCheckEvent tr = true → prompts tr = [].
Proof.
  induction tr as [|e tr IH]; [done|]. cbn [forallb].
  intros [He Htr]%andb_prop. destruct e; try done; by apply IH.
Qed.

Lemma selected_all_filter ofc pos batch :
  (selected ofc (λ _, true) pos batch).*2
  = List.filter (λ c, negb (noEffectiveChange ofc c)) batch.
Proof.
  revert pos. induction batch as [|c rest IH]; intros pos; [done|].
  cbn [selected List.filter]. rewrite fmap_app, IH, andb_true_r.
  by destruct (noEffectiveChange ofc c).
Qed.

Lemma cons_app {A} (a : A) l : a :: l = [a] ++ l.
Proof. reflexivity. Qed.

(** Computing the projections of the trace of a leaf. *)
Ltac project_leaf :=
  cbn [fst snd failed app];
  rewrite ?(cons_app GetAuthToken (_ ++ _));
  repeat first
    [ rewrite applyCalls_app | rewrite prompts_app | rewrite mutations_app ];
  repeat match goal with
    | Hp : forallb preCheckEvent ?tr = true |- context [applyCalls ?tr] =>
        rewrite (applyCalls_precheck tr Hp)
    | Hp : forallb preCheckEvent ?tr = true |- context [prompts ?tr] =>
        rewrite (prompts_precheck tr Hp)
    | Hp : forallb preCheckEvent ?tr = true
      |- context [List.filter remoteMutation ?tr] =>
        rewrite (no_mutation tr preCheckEvent ltac:(by intros []) Hp)
    | Hp : forallb reviewEvent ?tr = true |- context [applyCalls ?tr] =>
        rewrite (applyCalls_review tr Hp)
    | Hp : forallb reviewEvent ?tr = true
      |- context [List.filter remoteMutation ?tr] =>
        rewrite (no_mutation tr reviewEvent ltac:(by intros []) Hp)
    | Hp : forallb applyEvent ?tr = true |- context [prompts ?tr] =>
        rewrite (prompts_apply tr Hp)
    | Hp : applyCalls ?tr = _ |- context [applyCalls ?tr] => rewrite Hp
    | Hp : List.filter remoteMutation ?tr = _
      |- context [List.filter remoteMutation ?tr] => rewrite Hp
    end;
  cbn [applyCalls prompts omap list_omap applyCall promptOf List.filter
       remoteMutation app];
  rewrite ?app_nil_r.

(** When no answer is [abort], or with [--yes], a run that reaches the
    generation request asks about the changes that are not empty
    [modify]s (about none with [--yes]) and applies those accepted. *)
Lemma applied_are_selected prompt o scanned out :
  backend_scanProject W = Resolved scanned →
  backend_callLLM W = Resolved out →
  In (CallLLM prompt) (trace (generate W prompt o)) →
  (yes o = true ∨ ∀ i, inquirer_confirm W i ≠ Abort) →
  applyCalls (trace (generate W prompt o))
  = (selected (originalFileContentsOf scanned)
       (λ i, yes o || accepts W i) 0 (changes out)).*2
  ∧ prompts (trace (generate W prompt o))
    = if yes o then []
      else selected (originalFileContentsOf scanned) (λ _, true) 0 (changes out).
Proof.
  intros Hs Hl Hin Hno. revert Hin. rewrite generate_trace.
  assert (Hno' : yes o = true ∨ ∀ i, 0 ≤ i → inquirer_confirm W i ≠ Abort).
  { destruct Hno as [?|Hno]; [by left|right]. intros i _. apply Hno. }
  run_leaves W prompt o.
  all: try (destruct (reviewLoop_selected W (yes o) g ob
                        (originalFileContentsOf files) (changes llm)
                        0 [] [] o1 Hno')
              as (ev & o' & Hsel & Hask & Hpr & _);
            rewrite Hrev in Hsel; cbn [app] in Hsel;
            try discriminate Hsel;
            injection Hsel as -> -> Hcta Hfma).
  all: cbn [fst snd failed app]; intros Hin.
  all: try (exfalso; in_leaf Hin; fail).
  all: clear Hin; simplify_eq.
  all: project_leaf.
  all: try rewrite Hpr.
  all: try rewrite <- Hcta.
  all: try (rewrite Hchs; cbn).
  all: cbn.
  all: try (split; [done|by destruct (yes o)]).
Qed.

Lemma filter_andb {A} (P Q : A → bool) l :
  List.filter (λ x, P x && Q x) l = List.filter Q (List.filter P l).
Proof.
  induction l as [|x l IH]; [done|]. cbn [List.filter].
  destruct (P x); cbn [andb List.filter]; [|done].
  destruct (Q x); by rewrite IH.
Qed.

Lemma selected_filter ofc keep batch : ∀ pos,
  selected ofc keep pos batch
  = List.filter (λ p, negb (noEffectiveChange ofc p.2) && keep p.1)
      (imap (λ i c, (pos + i, c)) batch).
Proof.
  induction batch as [|c rest IH]; intros pos; [done|].
  cbn [selected imap List.filter fst snd]. rewrite Nat.add_0_r, IH.
  rewrite (imap_ext (λ i c0, (S pos + i, c0)) ((λ i c0, (pos + i, c0)) ∘ S) rest)
    by (intros; cbn; f_equal; lia).
  by destruct (negb (noEffectiveChange ofc c) && keep pos).
Qed.

(** X12. With [--yes], once the generation request is answered, the changes
    handed to [applyFileChange] are the proposed changes without the
    [modify]s whose diff is empty, in the proposed order. *)
Theorem yes_applies_effective_changes prompt o scanned out :
  yes o = true →
  backend_scanProject W = Resolved scanned →
  backend_callLLM W = Resolved out →
  In (CallLLM prompt) (trace (generate W prompt o)) →
  applyCalls (trace (generate W prompt o))
  = List.filter
      (λ c, negb (noEffectiveChange (originalFileContentsOf scanned) c))
      (changes out).
Proof.
  intros Hyes Hs Hl Hin.
  destruct (applied_are_selected prompt o scanned out Hs Hl Hin (or_introl Hyes))
    as [-> _].
  rewrite Hyes. cbn [orb]. apply selected_all_filter.
Qed.

(** X13. Without [--yes] and without an [abort] among the answers, the user is
    asked once about every proposed change that is not a [modify] with an
    empty diff, in order and under its position in the proposal, and the
    changes applied are those answered [yes] or [all]: a change after an
    [all] is still decided by its own answer. *)
Theorem interactive_applies_accepted prompt o scanned out :
  yes o = false →
  (∀ i, inquirer_confirm W i ≠ Abort) →
  backend_scanProject W = Resolved scanned →
  backend_callLLM W = Resolved out →
  In (CallLLM prompt) (trace (generate W prompt o)) →
  prompts (trace (generate W prompt o))
  = List.filter
      (λ p, negb (noEffectiveChange (originalFileContentsOf scanned) p.2))
      (imap (λ i c, (i, c)) (changes out))
  ∧ applyCalls (trace (generate W prompt o))
    = (List.filter (λ p, accepts W p.1)
         (prompts (trace (generate W prompt o)))).*2.
Proof.
  intros Hyes Hno Hs Hl Hin.
  destruct (applied_are_selected prompt o scanned out Hs Hl Hin (or_intror Hno))
    as [-> ->].
  rewrite Hyes. cbn [orb]. rewrite !selected_filter. cbn [plus].
  rewrite (List.filter_ext _
             (λ p, negb (noEffectiveChange (originalFileContentsOf scanned) p.2))
             (λ p, andb_true_r _)).
  split; [done|by rewrite filter_andb].
Qed.

(** X14. Whatever happens, the changes handed to [applyFileChange] are taken
    from the changes the generation request returned, each at most once
    and in the proposed order; none is applied when the request failed. *)
Theorem applied_from_proposal prompt o :
  sublist (applyCalls (trace (generate W prompt o)))
    match backend_callLLM W with
    | Resolved out => changes out
    | Rejected _ => []
    end.
Proof.
  rewrite generate_trace.
  run_leaves W prompt o.
  all: try (apply reviewLoop_sublist in Hrev as Hsub;
            destruct Hsub as (kept & Hkept & Hsub); cbn [app] in Hkept;
            subst kept).
  all: project_leaf.
  all: try apply sublist_nil_l.
  all: done.
Qed.

(** X17. The requests that change a file on the backend are, in order, one for
    each applied change with a known action ([add], [modify], [delete]):
    nothing is written for a change that was not handed to
    [applyFileChange], and nothing twice. *)
Theorem remote_mutations_of_run prompt o :
  List.filter remoteMutation (trace (generate W prompt o))
  = map (requestOf (path_resolve (process_cwd W) (path o)))
      (List.filter (λ c, knownAction (action c))
         (applyCalls (trace (generate W prompt o)))).
Proof.
  rewrite generate_trace.
  run_leaves W prompt o.
  all: project_leaf.
  all: done.
Qed.

(** X7. A working branch is only created under the name given with
    [--branch], else the name derived from the prompt (with [--yes]) or
    the name the user entered. *)
Theorem created_branch_is_working_branch prompt o b :
  In (CallCreateBranch b) (trace (generate W prompt o)) →
  b = workingBranchName W prompt o.
Proof.
  rewrite generate_trace.
  pose proof (gitPreCheck_branch_name W prompt
                (path_resolve (process_cwd W) (path o)) o b) as Hname.
  run_leaves W prompt o.
  all: try (rewrite Hgit in Hname; cbn [fst] in Hname).
  all: cbn [fst snd failed app]; intros Hin; in_leaf Hin.
  all: try (by apply Hname in Hin as [_ ?]).
  all: try (by apply (in_forallb _ _ _ Hrevev) in Hin).
  all: try (by apply (in_forallb _ _ _ Hattev) in Hin).
Qed.

(** X2. Without a stored token, or when the token cannot be read, the command
    fails at once: nothing is checked, scanned, asked or written. *)
Theorem not_logged_in_stops_at_once prompt o :
  auth_getAuthToken W ≠ Resolved true →
  outcome (generate W prompt o) = Failed
  ∧ ∃ text,
      trace (generate W prompt o)
      = [GetAuthToken; ConsoleError text; ProcessExit 1].
Proof.
  intros Hauth'. rewrite generate_trace, generate_outcome.
  unfold generatePhases.
  destruct (auth_getAuthToken W) as [[]|message]; [done| |]; cbn; eauto.
Qed.

(** X11. When the generation request returns no change, the run ends there,
    successfully: a working branch the pre-check created is left checked
    out, the original branch is not restored. *)
Theorem empty_proposal_ends_run prompt o out :
  backend_callLLM W = Resolved out →
  changes out = [] →
  In (CallLLM prompt) (trace (generate W prompt o)) →
  outcome (generate W prompt o) = Done
  ∧ last (trace (generate W prompt o)) = Some (CallLLM prompt).
Proof.
  intros Hl Hnone. rewrite generate_trace, generate_outcome.
  run_leaves W prompt o.
  all: cbn [fst snd failed app]; intros Hin.
  all: try (exfalso; in_leaf Hin; fail).
  all: simplify_eq; try congruence.
  split; [done|]. apply (last_two (GetAuthToken :: pre0)).
Qed.

(** X19. What is handed to [git add] is the path, relative to the project root,
    of every applied change, in order; staging takes place only when a
    change was applied. *)
Theorem staged_relative_paths prompt o ps :
  In (GitAdd ps) (trace (generate W prompt o)) →
  ps = map (λ c, path_relative (path_resolve (process_cwd W) (path o))
                   (filePath c))
         (applyCalls (trace (generate W prompt o)))
  ∧ applyCalls (trace (generate W prompt o)) ≠ [].
Proof.
  rewrite generate_trace.
  run_leaves W prompt o.
  all: cbn [fst snd failed app]; intros Hin.
  all: try (exfalso; in_leaf Hin; fail).
  all: in_leaf Hin; simplify_eq.
  all: project_leaf.
  all: destruct Hrc as [(kept & Hk & Hf & _) _]; cbn [app] in Hk, Hf;
       subst kept fma.
  all: by rewrite map_map.
Qed.

Lemma split_past {A} (P : A → bool) (L M tr1 tr2 : list A) e :
  L ++ M = tr1 ++ e :: tr2 →
  (∀ x, In x L → P x = false) → P e = true →
  ∃ m, M = m ++ e :: tr2.
Proof.
  revert tr1. induction L as [|x L IH]; intros tr1 Heq HL He.
  { by exists tr1. }
  destruct tr1 as [|y tr1]; cbn in Heq; simplify_eq.
  - rewrite HL in He by (by left). done.
  - apply (IH tr1); [done| |done]. intros z Hz. apply HL. by right.
Qed.

(** X16. Every decision is taken before anything is written: once a request
    that changes a file has been sent, the command asks nothing more. *)
Theorem decisions_precede_mutations prompt o tr1 e tr2 e' :
  trace (generate W prompt o) = tr1 ++ e :: tr2 →
  remoteMutation e = true →
  In e' tr2 → promptEvent e' = false.
Proof.
  rewrite generate_trace. intros Htr He Hin'.
  assert (Hin : In e (generatePhases W prompt o).1.1).
  { rewrite Htr, in_app_iff. right. by left. }
  revert Htr Hin.
  run_leaves W prompt o.
  all: cbn [fst snd failed app]; intros Htr Hin.
  all: try (exfalso; in_leaf Hin; subst; try discriminate He;
            try (apply (in_forallb _ _ _ Hpreev) in Hin; by destruct e);
            try (apply (in_forallb _ _ _ Hrevev) in Hin; by destruct e);
            fail).
  all: rewrite <- ?app_assoc in Htr; cbn [app] in Htr.
  all: apply (split_past remoteMutation (GetAuthToken :: pre0)) in Htr
         as [m1 Htr]; [|intros x [<-|Hx]; [done|];
                          apply (in_forallb _ _ _ Hpreev) in Hx; by destruct x
                       |done].
  all: apply (split_past remoteMutation
                [ScanProject (allScanPathsOf o)
                   (path_resolve (process_cwd W) (path o)); CallLLM prompt])
         in Htr as [m2 Htr]; [|by intros x [<-|[<-|[]]]|done].
  all: apply (split_past remoteMutation rev) in Htr as [m3 Htr];
         [|intros x Hx; apply (in_forallb _ _ _ Hrevev) in Hx; by destruct x
          |done].
  all: assert (Hlate : In e' (m3 ++ e :: tr2))
         by (rewrite in_app_iff; right; by right).
  all: rewrite <- Htr in Hlate; in_leaf Hlate; try (by subst).
  all: apply (in_forallb _ _ _ Hattev) in Hlate; by destruct e'.
Qed.

(** X15. When the review ends without any change to apply (every change was
    declined or had an empty diff) and a working branch was created, the
    original branch is checked out again; the run ends there, successfully
    when the checkout succeeds and as a failure when it does not. *)
Theorem nothing_confirmed_checks_out_original_branch
    prompt o b original out :
  backend_callLLM W = Resolved out →
  changes out ≠ [] →
  (∀ i, inquirer_confirm W i ≠ Abort) →
  In (CallLLM prompt) (trace (generate W prompt o)) →
  applyCalls (trace (generate W prompt o)) = [] →
  In (CallCreateBranch b) (trace (generate W prompt o)) →
  b ≠ "" →
  git_branchLocal W = Resolved original →
  original ≠ "" →
  ∃ before,
    trace (generate W prompt o)
    = before ++ GitCheckout original
        :: match git_checkout W original with
           | Resolved _ => []
           | Rejected message =>
               [ConsoleError ("Error during generation: " +:+ message);
                ProcessExit 1]
           end
    ∧ outcome (generate W prompt o)
      = match git_checkout W original with
        | Resolved _ => Done
        | Rejected _ => Failed
        end.
Proof.
  intros Hl Hsome Hno. rewrite generate_trace, generate_outcome.
  intros Hin Hnone Hbr Hb Horig Horig'. revert Hin Hnone Hbr.
  run_leaves W prompt o.
  all: cbn [fst snd failed app]; intros Hin.
  all: try (exfalso; in_leaf Hin; fail).
  all: clear Hin; simplify_eq; try congruence.
  all: project_leaf; intros Hnone Hbr; try discriminate Hnone.
  all: try (destruct Hrc as (? & i & ? & ? & ? & _ & Habort & _);
            by destruct (Hno i)).
  all: in_leaf Hbr.
  all: destruct Hpre as (_ & _ & _ & _ & Hcb);
       apply Hcb in Hbr as (-> & Hn1 & Hb1 & ->).
  all: unfold currentBranchOf in *; rewrite Horig in *;
       cbn [default from_option id] in *.
  all: try (rewrite Hrn, Hn1, Hrb, Hb1, !truthy_Some in Hguard by done;
            discriminate Hguard).
  all: rewrite Hco.
  all: exists (GetAuthToken
               :: (pre0 ++ [ScanProject (allScanPathsOf o)
                              (path_resolve (process_cwd W) (path o));
                            CallLLM prompt]) ++ rev);
       split; [same_trace|done].
Qed.

End WholeRuns.

Section BackendReplies.
Context `{Platform} (W : World).

Lemma reviewLoop_mutation f auto g ob ofc batch : ∀ pos,
  reviewLoop (Sample.with_mutation f W) auto g ob ofc pos batch
  = reviewLoop W auto g ob ofc pos batch.
Proof.
  induction batch as [|c rest IH]; intros pos; [done|].
  cbn [reviewLoop]. by rewrite IH.
Qed.

Lemma attempts_notErrorLine f root cs : ∀ k,
  List.filter notErrorLine
    (concat (imap (λ j c, attempt (Sample.with_mutation f W) root (k + j) c) cs))
  = List.filter notErrorLine
      (concat (imap (λ j c, attempt W root (k + j) c) cs)).
Proof.
  induction cs as [|c cs IH]; intros k; [done|].
  cbn [imap concat]. rewrite !List.filter_app, !imap_attempt_shift, IH.
  f_equal. unfold attempt. cbn [Sample.with_mutation backend_mutation].
  destruct (knownAction (action c)); [|done].
  rewrite !List.filter_app. f_equal.
  by destruct (f (k + 0)), (backend_mutation W (k + 0)).
Qed.

Lemma afterReview_mutation f root pre g ob r :
  (afterReview (Sample.with_mutation f W) root pre g ob r).2
  = (afterReview W root pre g ob r).2
  ∧ List.filter notErrorLine
      (afterReview (Sample.with_mutation f W) root pre g ob r).1.1
    = List.filter notErrorLine (afterReview W root pre g ob r).1.1.
Proof.
  destruct r as [[rev o2] [[[|ch cta] fma]|x|message]]; cbn [afterReview];
    try done.
  change (stageFiles (Sample.with_mutation f W)) with (stageFiles W).
  pose proof (attempts_notErrorLine f root (ch :: cta) 0) as Hsame.
  cbn [plus] in Hsame.
  set (attempts := concat (imap _ (ch :: cta))) in *.
  set (attempts' := concat (imap _ (ch :: cta))) in *.
  clearbody attempts attempts'.
  destruct (g && negb (noGit o2));
    [destruct (stageFiles W root fma o2) as [[st o3] [[]|x|message]]|];
    cbn [fst snd failed]; (split; [done|]);
    rewrite ?List.filter_app, Hsame; done.
Qed.

(** X18. The replies of the backend to the requests that change files only
    show in lines of [console.error]: a run in which such requests fail
    ends with the same outcome, and makes the same calls, applies, stages
    and asks the same, as the run in which they succeed. *)
Theorem apply_failures_only_show_as_error_lines f prompt o :
  outcome (generate (Sample.with_mutation f W) prompt o)
  = outcome (generate W prompt o)
  ∧ List.filter notErrorLine
      (trace (generate (Sample.with_mutation f W) prompt o))
    = List.filter notErrorLine (trace (generate W prompt o)).
Proof.
  rewrite (generate_trace W), (generate_outcome W),
    (generate_trace (Sample.with_mutation f W)),
    (generate_outcome (Sample.with_mutation f W)).
  unfold generatePhases.
  cbn [Sample.with_mutation auth_getAuthToken backend_scanProject
       backend_callLLM process_cwd].
  change (gitPreCheck (Sample.with_mutation f W)) with (gitPreCheck W).
  destruct (auth_getAuthToken W) as [[]|?]; [|done..].
  destruct (gitPreCheck W prompt _ (yes o) (noGit o) (branch o) o)
    as [[pre0 o1] [[g ob]|?|?]]; [|done..].
  destruct (backend_scanProject W) as [files|?]; [|done].
  destruct (backend_callLLM W) as [llm|?]; [|done].
  destruct (changes llm) as [|ch0 chs] eqn:Hchs; [done|].
  rewrite reviewLoop_mutation.
  destruct (afterReview_mutation f (path_resolve (process_cwd W) (path o))
              (GetAuthToken :: pre0
               ++ [ScanProject (allScanPathsOf o)
                     (path_resolve (process_cwd W) (path o)); CallLLM prompt])
              g ob
              (reviewLoop W (yes o) g ob (originalFileContentsOf files) 0
                 (ch0 :: chs) [] [] o1)) as [-> ->].
  done.
Qed.

End BackendReplies.

(** * gitManager.ts *)

Section GitManagerFacts.
Context `{Platform} (W : World).

(** X20. [createBranch] returns normally only when [git checkout] of the branch
    succeeded, so that the branch is checked out after it; the error it
    throws is the one Git reported for [git branch] or [git checkout].
    When [git branch] fails with a message that holds both [A branch named]
    and [already exists], spelt so, the branch is checked out instead;
    with any other message, such as the same words behind a small [a],
    the error is thrown again and nothing is checked out. *)
Theorem createBranch_checks_out_or_throws repoPath b o :
  let r := createBranch W repoPath b o in
  r.1.2 = o
  ∧ (∀ u, r.2 = Normal u →
       git_checkout W b = Resolved tt ∧ last r.1.1 = Some (GitCheckout b))
  ∧ (∀ m, r.2 = Throw m →
       git_branch W b = Rejected m ∨ git_checkout W b = Rejected m)
  ∧ (∀ x, r.2 ≠ Halt x)
  ∧ (∀ m, git_branch W b = Rejected m →
       includes "A branch named" m && includes "already exists" m = true →
       git_checkout W b = Resolved tt →
       r.2 = Normal tt ∧ In (GitCheckout b) r.1.1)
  ∧ (∀ m, git_branch W b = Rejected m →
       includes "A branch named" m && includes "already exists" m = false →
       r.2 = Throw m ∧ ¬ In (GitCheckout b) r.1.1).
Proof.
  unfold createBranch, try_catch, emit, await, throw, settled.
  unfold mbind, mret, Prog_bind, Prog_ret, prog_bind, prog_ret.
  destruct (git_branch W b) as [[]|m1] eqn:Hb;
    destruct (git_checkout W b) as [[]|m2] eqn:Hc; cbn;
    repeat match goal with
           | |- context [includes ?a ?m && includes ?c ?m] =>
               destruct (includes a m && includes c m) eqn:?; cbn
           end.
  all: split_and!; try done; intros; simplify_eq; try done; eauto.
  all: try congruence.
  all: try (cbn; tauto).
  all: split; [done|]; intros [?|[?|[?|[]]]]; discriminate.
Qed.

(** X5. The answer of [checkIsRepo] is not looked at: whenever the call
    returns, with [true] or with [false], the command goes on as in a
    repository and reads the current branch next. *)
Theorem repository_answer_is_not_read prompt o answer :
  auth_getAuthToken W = Resolved true →
  noGit o = false →
  git_checkIsRepo W = Resolved answer →
  isGitRepository W (path_resolve (process_cwd W) (path o)) o
  = ([GitCheckIsRepo], o, Normal true)
  ∧ ∃ rest,
      trace (generate W prompt o)
      = GetAuthToken :: GitCheckIsRepo :: GitBranchLocal :: rest.
Proof.
  intros Hauth Hng Hrepo. split.
  { unfold isGitRepository, try_catch, emit, await, settled.
    unfold mbind, mret, Prog_bind, Prog_ret, prog_bind, prog_ret.
    by rewrite Hrepo. }
  rewrite generate_trace. unfold generatePhases. rewrite Hauth.
  assert (Hpre : ∃ rest,
            (gitPreCheck W prompt (path_resolve (process_cwd W) (path o))
               (yes o) (noGit o) (branch o) o).1.1
            = GitCheckIsRepo :: GitBranchLocal :: rest).
  { rewrite Hng. unfold_precheck. rewrite Hrepo. split_cases.
    all: cbn; eauto. }
  destruct Hpre as [rest Hpre].
  destruct (gitPreCheck W prompt _ (yes o) (noGit o) (branch o) o)
    as [[pre0 o1] [[g ob]|x|message]]; cbn [fst] in Hpre; subst pre0.
  - destruct (backend_scanProject W); [destruct (backend_callLLM W) as [llm|];
      [destruct (changes llm)|]|]; cbn [failed fst app]; eauto.
    unfold afterReview.
    destruct (reviewLoop _ _ _ _ _ _ _ _ _ _) as [[rev o2] [[[|] fma]|x|m]];
      cbn [failed fst app]; eauto.
    + destruct (revertBranch W g ob o2) as [[evr o3] [[]|x|m]];
        cbn [failed fst app]; eauto.
    + destruct (g && negb (noGit o2));
        [destruct (stageFiles _ _ _ _) as [[st o3] [[]|x|m]]|];
        cbn [failed fst app]; eauto.
  - cbn; eauto.
  - cbn; eauto.
Qed.

End GitManagerFacts.

(** * diffGenerator.ts *)

Section DiffGeneratorFacts.
Context `{Platform}.

Lemma split_lines_cons s : ∃ l ls, split_lines s = l :: ls.
Proof.
  induction s as [|c s (l & ls & IH)]; [by eexists _, _|].
  cbn [split_lines]. destruct (Ascii.eqb c LF); [by eexists _, _|].
  rewrite IH. by eexists _, _.
Qed.

Lemma join_lines_cons l ls :
  join_lines (l :: ls)
  = match ls with
    | [] => l
    | _ => l +:+ String LF "" +:+ join_lines ls
    end.
Proof. by destruct ls. Qed.

Lemma append_eq_empty s t : s +:+ t = "" → s = "" ∧ t = "".
Proof. destruct s; [done|]. by rewrite append_cons. Qed.

Lemma foldl_append_empty {A} (f : A → string) l acc :
  foldl (λ s x, s +:+ f x) acc l = "" → acc = "" ∧ Forall (λ x, f x = "") l.
Proof.
  revert acc. induction l as [|x l IH]; intros acc; cbn [foldl].
  { by split. }
  intros [[-> Hx]%append_eq_empty Hl]%IH. split; [done|by constructor].
Qed.

(** The rendering of a part without its colour is never empty: its first
    line begins with the prefix. *)
Lemma prefixed_lines_not_empty prefix v :
  prefix ≠ "" →
  join_lines (map (λ line, prefix +:+ line) (split_lines v)) ≠ "".
Proof.
  intros Hp. destruct (split_lines_cons v) as (l & ls & ->).
  cbn [map]. rewrite join_lines_cons.
  destruct (map _ ls);
    intros Hempty; repeat apply append_eq_empty in Hempty as [Hempty _]; done.
Qed.

(** X21. As long as colouring keeps a text that is not empty from becoming
    empty, the diff is reported as empty in two cases only: the library
    returned no part at all, or a single part whose [added] and [removed]
    are both [undefined].  A single unchanged part that carries
    [added: false] is rendered, and the change is not skipped. *)
Theorem generateUnifiedDiff_empty_iff original new :
  (∀ s, s ≠ "" → chalk_green s ≠ "" ∧ chalk_red s ≠ "" ∧ chalk_grey s ≠ "") →
  generateUnifiedDiff original new = ""
  ↔ diffLines original new = []
    ∨ ∃ part, diffLines original new = [part]
              ∧ Diff.added part = None ∧ Diff.removed part = None.
Proof.
  intros Hcolour.
  assert (Hpart : ∀ part, render_part part ≠ "").
  { intros part. unfold render_part.
    destruct (flag (Diff.added part)); [|destruct (flag (Diff.removed part))];
      apply Hcolour; by apply prefixed_lines_not_empty. }
  unfold generateUnifiedDiff.
  destruct (diffLines original new) as [|part [|part' rest]] eqn:Hd.
  - split; [by left|done].
  - destruct (Diff.added part) as [a|] eqn:Ha;
      destruct (Diff.removed part) as [r|] eqn:Hr;
      cbn [is_undefined andb foldl].
    4: { split; [|done]. intros _. right. by exists part. }
    all: split;
      [intros [_ Hx]%append_eq_empty; by destruct (Hpart part)
      |intros [?|(p & ? & ? & ?)]; simplify_eq; congruence].
  - split.
    + intros [_ Hall]%foldl_append_empty. apply Forall_cons in Hall as [Hx _].
      by destruct (Hpart part).
    + intros [?|(p & ? & _)]; simplify_eq.
Qed.

End DiffGeneratorFacts.

(** * The default branch name *)

Section BranchNameShape.
Context `{Platform}.

Lemma all_chars_substring P s : ∀ n,
  all_chars P s = true → all_chars P (String.substring 0 n s) = true.
Proof.
  induction s as [|c s IH]; intros [|n]; try done.
  cbn [all_chars String.substring]. intros [-> Hs]%andb_prop.
  by rewrite IH.
Qed.

Lemma replace_from_chars s : ∀ b,
  all_chars (λ c, is_lower_alnum c || Ascii.eqb c dash) (replace_from b s)
  = true.
Proof.
  induction s as [|c s IH]; intros b; [done|]. cbn [replace_from].
  destruct (is_lower_alnum c) eqn:Hc; [|destruct b]; cbn [all_chars];
    rewrite ?Hc, ?IH; done.
Qed.

Lemma prefix_cons a s1 b s2 :
  String.prefix (String a s1) (String b s2)
  = if ascii_dec a b then String.prefix s1 s2 else false.
Proof. reflexivity. Qed.

Lemma includes_cons needle c s :
  includes needle (String c s)
  = if String.prefix needle (String c s) then true else includes needle s.
Proof. reflexivity. Qed.

(** The replacement writes no two dashes in a row, and does not begin
    with a dash when it continues a match. *)
Lemma replace_from_dashes s : ∀ b,
  includes "--" (replace_from b s) = false
  ∧ (b = true → String.prefix "-" (replace_from b s) = false).
Proof.
  induction s as [|c s IH]; intros b; [by destruct b|].
  cbn [replace_from].
  destruct (is_lower_alnum c) eqn:Hc.
  - destruct (IH false) as [Hin _].
    assert (Hne : c ≠ dash) by (by intros ->).
    rewrite includes_cons, Hin, !prefix_cons.
    destruct (ascii_dec "-" c) as [<-|_]; done.
  - destruct b; [apply IH|].
    destruct (IH true) as [Hin Hpre]. specialize (Hpre eq_refl). split; [|done].
    rewrite includes_cons, Hin, prefix_cons.
    destruct (ascii_dec "-" dash); [|done].
    by rewrite Hpre.
Qed.

Lemma prefix_substring p s : ∀ n,
  String.prefix p (String.substring 0 n s) = true → String.prefix p s = true.
Proof.
  revert s. induction p as [|a p IH]; intros s n; [by destruct s|].
  destruct s as [|c s], n as [|n]; try done.
  cbn [String.substring]. rewrite !prefix_cons.
  destruct (ascii_dec a c); [apply IH|done].
Qed.

Lemma includes_substring needle s : ∀ n,
  needle ≠ "" →
  includes needle s = false →
  includes needle (String.substring 0 n s) = false.
Proof.
  intros n Hneedle. revert n.
  induction s as [|c s IH]; intros n.
  { destruct n; by destruct needle. }
  rewrite includes_cons.
  destruct (String.prefix needle (String c s)) eqn:Hp; [done|]. intros Hs.
  destruct n as [|n]; [by destruct needle|].
  cbn [String.substring]. rewrite includes_cons, IH by done.
  destruct (String.prefix needle (String c (String.substring 0 n s))) eqn:Hq;
    [|done].
  apply (prefix_substring needle (String c s) (S n)) in Hq. congruence.
Qed.

(** X22. The suggested branch name is the prefix ["feature/"] followed by at
    most 42 characters, each a lower-case letter, a digit or a dash, with
    no two dashes in a row: whatever the prompt, the name has no space,
    no upper-case letter and no character outside ASCII. *)
Theorem defaultBranchSuggestion_shape prompt :
  ∃ slug,
    defaultBranchSuggestion prompt = "feature/" +:+ slug
    ∧ String.length slug ≤ 42
    ∧ all_chars (λ c, is_lower_alnum c || Ascii.eqb c dash) slug = true
    ∧ includes "--" slug = false.
Proof.
  exists (substring_to 42 (replace_non_alnum_runs (toLowerCase prompt))).
  split_and!.
  - reflexivity.
  - apply substring_to_length.
  - apply all_chars_substring, replace_from_chars.
  - apply includes_substring; [done|]. apply replace_from_dashes.
Qed.

End BranchNameShape.

(** * llm/jsonRepair.ts *)

Section JsonRepairFacts.
Import JsonRepair.

Lemma escape_char_backslash : escape_char backslash = true.
Proof. reflexivity. Qed.

(** The repair keeps the first character of a text. *)
Lemma lone_backslash_repair c s :
  lone_backslash c (repairJsonBadEscapes s) = lone_backslash c s.
Proof.
  destruct s as [|d s]; [done|]. cbn [repairJsonBadEscapes].
  destruct (lone_backslash d s) eqn:Hd; [|done].
  unfold lone_backslash in *. apply andb_prop in Hd as [Hd _].
  apply Ascii.eqb_eq in Hd. by subst d.
Qed.

Lemma repair_length s :
  String.length (repairJsonBadEscapes s)
  = String.length s + lone_backslashes s.
Proof.
  induction s as [|c s IH]; [done|].
  cbn [repairJsonBadEscapes lone_backslashes String.length].
  destruct (lone_backslash c s); cbn [String.length]; lia.
Qed.

Lemma repair_without_match s :
  lone_backslashes s = 0 → repairJsonBadEscapes s = s.
Proof.
  induction s as [|c s IH]; [done|].
  cbn [repairJsonBadEscapes lone_backslashes].
  destruct (lone_backslash c s); [done|]. cbn [plus]. by intros ->%IH.
Qed.

Lemma repair_changes_length s :
  repairJsonBadEscapes s = s → lone_backslashes s = 0.
Proof.
  intros Hs. apply (f_equal String.length) in Hs.
  rewrite repair_length in Hs. lia.
Qed.

(** X23. The repair leaves a text as it is exactly when the text has no
    backslash to escape: no backslash at its end or before a character
    other than the double quote, the backslash, the slash and
    [b f n r t u]. *)
Theorem repair_unchanged_iff s :
  repairJsonBadEscapes s = s ↔ lone_backslashes s = 0.
Proof. split; [apply repair_changes_length|apply repair_without_match]. Qed.

(** X24. The repair only inserts backslashes, one for each backslash to
    escape: the text is one character longer per match, and without its
    backslashes it reads the same. *)
Theorem repair_only_inserts_backslashes s :
  String.length (repairJsonBadEscapes s)
  = String.length s + lone_backslashes s
  ∧ without_backslashes (repairJsonBadEscapes s) = without_backslashes s.
Proof.
  split; [apply repair_length|].
  induction s as [|c s IH]; [done|].
  cbn [repairJsonBadEscapes without_backslashes].
  destruct (lone_backslash c s) eqn:Hc.
  - unfold lone_backslash in Hc. apply andb_prop in Hc as [Hc _].
    rewrite Hc. cbn [without_backslashes].
    by rewrite (proj2 (Ascii.eqb_eq backslash backslash) eq_refl).
  - cbn [without_backslashes]. by rewrite IH.
Qed.

(** X25. A backslash the repair escaped is found to escape again by a second
    pass: the repaired text has as many matches as the text had, so the
    repair is idempotent only on the texts it leaves unchanged. *)
Theorem repair_is_not_idempotent s :
  lone_backslashes (repairJsonBadEscapes s) = lone_backslashes s
  ∧ (repairJsonBadEscapes (repairJsonBadEscapes s) = repairJsonBadEscapes s
     ↔ repairJsonBadEscapes s = s).
Proof.
  assert (Hsame : lone_backslashes (repairJsonBadEscapes s)
                  = lone_backslashes s).
  { induction s as [|c s IH]; [done|].
    cbn [repairJsonBadEscapes lone_backslashes].
    destruct (lone_backslash c s) eqn:Hc.
    - cbn [lone_backslashes]. rewrite IH, lone_backslash_repair.
      assert (c = backslash) as ->.
      { unfold lone_backslash in Hc. apply andb_prop in Hc as [Hc _].
        by apply Ascii.eqb_eq in Hc. }
      rewrite Hc. unfold lone_backslash at 1.
      by rewrite escape_char_backslash, andb_false_r.
    - cbn [lone_backslashes]. by rewrite IH, lone_backslash_repair, Hc. }
  split; [done|]. split.
  - intros Hs%repair_changes_length. apply repair_without_match. congruence.
  - intros Hs. by rewrite !Hs.
Qed.

End JsonRepairFacts.

(** * The JSON tool *)

Section JsonToolFacts.
Import JsonTool.

(** X26. [preClean] leaves no NUL character in the text, changes nothing in a
    text without one, and has nothing left to do on its own result. *)
Theorem preClean_removes_nul text :
  occurs NUL (preClean text) = false
  ∧ (occurs NUL text = false → preClean text = text)
  ∧ preClean (preClean text) = preClean text.
Proof.
  assert (Hnone : occurs NUL (preClean text) = false).
  { induction text as [|c text IH]; [done|]. cbn [preClean].
    destruct (Ascii.eqb c NUL) eqn:Hc; [done|]. cbn [occurs].
    by rewrite Hc, IH. }
  assert (Hkeep : ∀ t, occurs NUL t = false → preClean t = t).
  { induction t as [|c t IH]; [done|]. cbn [preClean occurs].
    destruct (Ascii.eqb c NUL); [done|]. cbn [orb]. by intros ->%IH. }
  split_and!; [done|apply Hkeep|by apply Hkeep].
Qed.

End JsonToolFacts.

(** * Further properties of the setup *)

Section SetupFacts.
Context `{Platform} (W : World).

Lemma defaultBranchSuggestion_truthy prompt :
  truthy (Some (defaultBranchSuggestion prompt)) = true.
Proof. reflexivity. Qed.

Lemma gitPreCheck_creates prompt root o answer :
  noGit o = false →
  git_checkIsRepo W = Resolved answer →
  (yes o = true ∨ inquirer_proceedGit W = true) →
  In (CallCreateBranch (workingBranchName W prompt o))
     (gitPreCheck W prompt root (yes o) (noGit o) (branch o) o).1.1.
Proof.
  intros Hng Hrepo Hgo. unfold workingBranchName.
  pose proof (defaultBranchSuggestion_truthy prompt) as Hname.
  rewrite Hng. unfold_precheck. rewrite Hrepo.
  destruct Hgo as [Hyes|Hgo];
    [rewrite Hyes|destruct (yes o); rewrite ?Hgo]; cbn [negb].
  all: split_cases.
  all: cbn [fst snd app In set_branch set_noGit branch noGit yes
            default from_option id negb andb] in *.
  all: rewrite ?Hng, ?Hname in *; cbn [negb andb] in *.
  all: try congruence.
  all: repeat first [left; reflexivity|right].
Qed.

(** X3. The flag [--no-git] does not switch Git off.  Commander stores it
    under the key [git], the action reads [options.noGit], and so, with
    or without the flag, a logged-in run in a directory where the
    repository check returns goes on to create the working branch, at
    once with [--yes] and after the user agreed to the Git question
    without. *)
Theorem no_git_flag_is_not_read line prompt answer :
  auth_getAuthToken W = Resolved true →
  git_checkIsRepo W = Resolved answer →
  (CommandLine.yesFlag line = true ∨ inquirer_proceedGit W = true) →
  In (CallCreateBranch
        (workingBranchName W prompt (CommandLine.optionsOf line)))
     (trace (generate W prompt (CommandLine.optionsOf line))).
Proof.
  intros Hlogged Hrepo Hgo. rewrite generate_trace.
  pose proof (gitPreCheck_creates prompt
                (path_resolve (process_cwd W)
                   (path (CommandLine.optionsOf line)))
                (CommandLine.optionsOf line) answer eq_refl Hrepo Hgo)
    as Hcreated.
  set (o := CommandLine.optionsOf line) in *. clearbody o.
  run_leaves W prompt o; try congruence.
  all: cbn [fst] in Hcreated.
  all: cbn [fst snd failed].
  all: repeat (rewrite ?in_app_iff; cbn [In]); tauto.
Qed.

Lemma gitPreCheck_declined prompt root o answer :
  noGit o = false → yes o = false →
  git_checkIsRepo W = Resolved answer →
  inquirer_proceedGit W = false →
  gitPreCheck W prompt root (yes o) (noGit o) (branch o) o
  = ([GitCheckIsRepo; GitBranchLocal; PromptProceedGit], set_noGit true o,
     Normal (true, currentBranchOf W)).
Proof.
  intros -> -> Hrepo Hdecline. unfold_precheck. unfold currentBranchOf.
  rewrite Hrepo, Hdecline. by destruct (git_branchLocal W).
Qed.

(** X6. When the user declines the Git question, Git is switched off for the
    rest of the run: after the repository check, the reading of the
    current branch and the question itself, no branch is created, nothing
    is checked out and nothing is staged. *)
Theorem declined_git_calls_no_git prompt o answer e :
  noGit o = false → yes o = false →
  git_checkIsRepo W = Resolved answer →
  inquirer_proceedGit W = false →
  In e (trace (generate W prompt o)) →
  gitEvent e = true →
  e = GitCheckIsRepo ∨ e = GitBranchLocal ∨ e = PromptProceedGit.
Proof.
  intros Hng Hyes Hrepo Hdecline. rewrite generate_trace.
  run_leaves W prompt o.
  all: try (rewrite (gitPreCheck_declined _ _ _ answer) in Hgit by done;
            simplify_eq).
  all: try match goal with
           | Hrev : reviewLoop W ?a true ?ob ?ofc ?p ?b ?c ?f (set_noGit true ?o0)
                    = _ |- _ =>
               pose proof (reviewLoop_no_git W a true ob ofc b p c f
                             (set_noGit true o0) eq_refl) as Hask;
               rewrite Hrev in Hask; cbn [fst] in Hask
           end.
  all: try (rewrite Hrn in Hguard; cbn in Hguard; discriminate Hguard).
  all: cbn [fst snd failed app]; intros Hin Hgit; in_leaf Hin;
       try (by subst); try (subst; tauto).
  all: try (apply (in_forallb _ _ _ Hask) in Hin; by destruct e).
  all: try (apply (in_forallb _ _ _ Hattev) in Hin; by destruct e).
Qed.

(** X9. The scan request always names at least one path: the directories of
    [--scan-dirs] followed by the files of [--scan-files], or the project
    root itself when neither is given; it is sent for the resolved
    project root. *)
Theorem scan_request_of_run prompt o ps root :
  In (ScanProject ps root) (trace (generate W prompt o)) →
  ps ≠ []
  ∧ ps = (if decide (default [] (scanDirs o) ++ default [] (scanFiles o) = [])
          then ["."]
          else default [] (scanDirs o) ++ default [] (scanFiles o))
  ∧ root = path_resolve (process_cwd W) (path o).
Proof.
  assert (Hpaths : allScanPathsOf o ≠ []
            ∧ allScanPathsOf o
              = (if decide (default [] (scanDirs o)
                            ++ default [] (scanFiles o) = [])
                 then ["."]
                 else default [] (scanDirs o) ++ default [] (scanFiles o))).
  { unfold allScanPathsOf.
    destruct (scanDirs o) as [[|d ds]|], (scanFiles o) as [[|f fs]|];
      cbn; rewrite ?app_nil_r; done. }
  rewrite generate_trace.
  run_leaves W prompt o.
  all: cbn [fst snd failed app]; intros Hin; in_leaf Hin.
  all: try (by apply (in_forallb _ _ _ Hpreev) in Hin).
  all: try (by apply (in_forallb _ _ _ Hrevev) in Hin).
  all: try (by apply (in_forallb _ _ _ Hattev) in Hin).
  all: simplify_eq; by destruct Hpaths.
Qed.

Lemma originalFileContents_fold files p : ∀ m : gmap string string,
  foldl (λ m file, <[ScannedFile.filePath file := ScannedFile.content file]> m)
    m files !! p
  = match last (List.filter
                  (λ file, String.eqb (ScannedFile.filePath file) p) files) with
    | Some file => Some (ScannedFile.content file)
    | None => m !! p
    end.
Proof.
  induction files as [|file files IH]; intros m; [done|].
  cbn [foldl List.filter]. rewrite IH.
  destruct (String.eqb_spec (ScannedFile.filePath file) p) as [Hp|Hp].
  - destruct (List.filter _ files) as [|f fs] eqn:Hf; cbn [last].
    + by rewrite Hp, lookup_insert_eq.
    + destruct (last (f :: fs)) eqn:Hlast; [done|].
      by apply last_None in Hlast.
  - destruct (last (List.filter _ files)); [done|].
    by rewrite lookup_insert_ne.
Qed.

(** X10. The original content a [modify] is compared with is that of the scanned
    file of the same path; when the scan returned the path more than once,
    the last one; the empty text when it did not return it. *)
Theorem original_content_is_last_scanned files change :
  diffOf (originalFileContentsOf files) change
  = generateUnifiedDiff
      (or_empty
         (ScannedFile.content
            <$> last (List.filter
                        (λ file, String.eqb (ScannedFile.filePath file)
                                   (filePath change)) files)))
      (or_empty (newContent change)).
Proof.
  unfold diffOf, originalFileContentsOf.
  rewrite originalFileContents_fold, lookup_empty.
  by destruct (last _).
Qed.

End SetupFacts.

(** * Further runs evaluated on the sample platform *)

Section MoreEvaluated.
Import Sample Worlds.

Lemma answers_never_abort l :
  Forall (λ c, c ≠ Abort) l → ∀ i, answers l i ≠ Abort.
Proof.
  intros Hl i. unfold answers.
  destruct (l !! i) as [c|] eqn:Hi; [|done].
  by apply (Forall_lookup_1 _ _ _ _ Hl Hi).
Qed.

Lemma no_git_flag_is_not_read_witness :
  let W := world [] [a_ts] (answers []) in
  let line := {| CommandLine.pathOption := None;
                 CommandLine.scanDirsOption := None;
                 CommandLine.scanFilesOption := None;
                 CommandLine.yesFlag := true;
                 CommandLine.noGitFlag := true;
                 CommandLine.branchOption := None |} in
  auth_getAuthToken W = Resolved true
  ∧ git_checkIsRepo W = Resolved true
  ∧ (CommandLine.yesFlag line = true ∨ inquirer_proceedGit W = true)
  ∧ In (CallCreateBranch
          (workingBranchName W "Fix it" (CommandLine.optionsOf line)))
       (trace (generate W "Fix it" (CommandLine.optionsOf line))).
Proof.
  intros W line.
  split_and!; [reflexivity|reflexivity|by left|].
  exact (no_git_flag_is_not_read W line "Fix it" true
           eq_refl eq_refl (or_introl eq_refl)).
Defined.

(** [generate "Fix it" --yes --no-git] in a repository: the branch is
    created and the change is staged all the same. *)
Example no_git_flag_run :
  trace (generate (world [] [a_ts] (answers []))
           "Fix it"
           (CommandLine.optionsOf
              {| CommandLine.pathOption := None;
                 CommandLine.scanDirsOption := None;
                 CommandLine.scanFilesOption := None;
                 CommandLine.yesFlag := true;
                 CommandLine.noGitFlag := true;
                 CommandLine.branchOption := None |}))
  = [GetAuthToken; GitCheckIsRepo; GitBranchLocal;
     CallCreateBranch "feature/fix-it";
     GitBranch "feature/fix-it"; GitCheckout "feature/fix-it";
     ScanProject ["."] "/repo"; CallLLM "Fix it";
     CallApplyFileChange a_ts;
     CreateFile "/repo/a.ts" false "console.log(1)";
     CallStageFiles ["/repo/a.ts"]; GitAdd ["a.ts"]].
Proof. by vm_compute. Qed.

(** A branch that exists already, in the wording of earlier and of present
    releases of Git: the first is recovered from, the second is thrown
    again and fails the run. *)
Example existing_branch_in_both_wordings :
  let earlier := with_branch
                   (λ _, Rejected "fatal: A branch named 'feature/fix-it' already exists.")
                   (world [] [a_ts] (answers [])) in
  let present := with_branch
                   (λ _, Rejected "fatal: a branch named 'feature/fix-it' already exists")
                   (world [] [a_ts] (answers [])) in
  let o := cli true false None in
  (createBranch earlier "/repo" "feature/fix-it" o).2 = Normal tt
  ∧ (createBranch present "/repo" "feature/fix-it" o).2
    = Throw "fatal: a branch named 'feature/fix-it' already exists"
  ∧ outcome (generate earlier "Fix it" o) = Done
  ∧ outcome (generate present "Fix it" o) = Failed
  ∧ applyCalls (trace (generate present "Fix it" o)) = [].
Proof. by vm_compute. Qed.

Lemma outside_repository_only_checks_witness :
  let W := with_checkIsRepo (Rejected "fatal: not a git repository")
             (world [] [a_ts] (answers [Yes])) in
  let o := cli false false None in
  noGit o = false
  ∧ git_checkIsRepo W = Rejected "fatal: not a git repository"
  ∧ In GitCheckIsRepo (trace (generate W "Fix it" o))
  ∧ gitEvent GitCheckIsRepo = true
  ∧ GitCheckIsRepo = GitCheckIsRepo.
Proof.
  intros W o.
  assert (Hin : In GitCheckIsRepo (trace (generate W "Fix it" o)))
    by (vm_compute; tauto).
  split_and!; [reflexivity|reflexivity|exact Hin|reflexivity|].
  exact (outside_repository_only_checks W "Fix it" o _ _
           eq_refl eq_refl Hin eq_refl).
Defined.

Lemma yes_asks_nothing_witness :
  let W := world [] [a_ts] (answers []) in
  let o := cli true false None in
  yes o = true
  ∧ In (CallCreateBranch "feature/fix-it") (trace (generate W "Fix it" o))
  ∧ promptEvent (CallCreateBranch "feature/fix-it") = false.
Proof.
  intros W o.
  assert (Hin : In (CallCreateBranch "feature/fix-it")
                  (trace (generate W "Fix it" o)))
    by (vm_compute; tauto).
  split; [reflexivity|]. split; [exact Hin|].
  exact (yes_asks_nothing W "Fix it" o _ eq_refl Hin).
Defined.

Lemma yes_applies_effective_changes_witness :
  let files := [scanned "/repo/a.ts" "x"] in
  let cs := [modify "/repo/a.ts" "x"; b_ts] in
  let W := world files cs (answers []) in
  let o := cli true true None in
  yes o = true
  ∧ backend_scanProject W = Resolved files
  ∧ backend_callLLM W = Resolved (proposal cs)
  ∧ In (CallLLM "Fix it") (trace (generate W "Fix it" o))
  ∧ applyCalls (trace (generate W "Fix it" o))
    = List.filter
        (λ c, negb (noEffectiveChange (originalFileContentsOf files) c))
        (changes (proposal cs)).
Proof.
  intros files cs W o.
  assert (Hin : In (CallLLM "Fix it") (trace (generate W "Fix it" o)))
    by (vm_compute; tauto).
  split_and!; [reflexivity|reflexivity|reflexivity|exact Hin|].
  exact (yes_applies_effective_changes W "Fix it" o files (proposal cs)
           eq_refl eq_refl eq_refl Hin).
Defined.

Lemma interactive_applies_accepted_witness :
  let cs := [a_ts; b_ts] in
  let W := world [] cs (answers [No; All]) in
  let o := cli false true None in
  yes o = false
  ∧ (∀ i, inquirer_confirm W i ≠ Abort)
  ∧ backend_scanProject W = Resolved []
  ∧ backend_callLLM W = Resolved (proposal cs)
  ∧ In (CallLLM "Fix it") (trace (generate W "Fix it" o))
  ∧ prompts (trace (generate W "Fix it" o))
    = List.filter
        (λ p, negb (noEffectiveChange (originalFileContentsOf []) p.2))
        (imap (λ i c, (i, c)) (changes (proposal cs)))
  ∧ applyCalls (trace (generate W "Fix it" o))
    = (List.filter (λ p, accepts W p.1)
         (prompts (trace (generate W "Fix it" o)))).*2.
Proof.
  intros cs W o.
  assert (Hin : In (CallLLM "Fix it") (trace (generate W "Fix it" o)))
    by (vm_compute; tauto).
  assert (Hno : ∀ i, inquirer_confirm W i ≠ Abort).
  { apply answers_never_abort. repeat constructor; discriminate. }
  split_and!; [reflexivity|exact Hno|reflexivity|reflexivity|exact Hin|..];
    apply (interactive_applies_accepted W "Fix it" o [] (proposal cs)
             eq_refl Hno eq_refl eq_refl Hin).
Defined.

Lemma created_branch_is_working_branch_witness :
  let W := world [] [a_ts] (answers []) in
  let o := cli true false None in
  In (CallCreateBranch "feature/fix-it") (trace (generate W "Fix it" o))
  ∧ "feature/fix-it" = workingBranchName W "Fix it" o.
Proof.
  intros W o.
  assert (Hin : In (CallCreateBranch "feature/fix-it")
                  (trace (generate W "Fix it" o)))
    by (vm_compute; tauto).
  split; [exact Hin|].
  exact (created_branch_is_working_branch W "Fix it" o _ Hin).
Defined.

Lemma empty_proposal_ends_run_witness :
  let W := world [] [] (answers []) in
  let o := cli true false None in
  backend_callLLM W = Resolved (proposal [])
  ∧ changes (proposal []) = []
  ∧ In (CallLLM "Fix it") (trace (generate W "Fix it" o))
  ∧ outcome (generate W "Fix it" o) = Done
  ∧ last (trace (generate W "Fix it" o)) = Some (CallLLM "Fix it").
Proof.
  intros W o.
  assert (Hin : In (CallLLM "Fix it") (trace (generate W "Fix it" o)))
    by (vm_compute; tauto).
  split_and!; [reflexivity|reflexivity|exact Hin|..];
    apply (empty_proposal_ends_run W "Fix it" o (proposal [])
             eq_refl eq_refl Hin).
Defined.

Lemma nothing_confirmed_checks_out_original_branch_witness :
  let W := world [] [a_ts] (answers [No]) in
  let o := cli false false None in
  let r := generate W "Fix it" o in
  backend_callLLM W = Resolved (proposal [a_ts])
  ∧ applyCalls (trace r) = []
  ∧ In (CallCreateBranch "feature/fix-it") (trace r)
  ∧ git_branchLocal W = Resolved "main"
  ∧ ∃ before,
      trace r
      = before ++ GitCheckout "main"
          :: match git_checkout W "main" with
             | Resolved _ => []
             | Rejected message =>
                 [ConsoleError ("Error during generation: " +:+ message);
                  ProcessExit 1]
             end
      ∧ outcome r
        = match git_checkout W "main" with
          | Resolved _ => Done
          | Rejected _ => Failed
          end.
Proof.
  intros W o r.
  assert (Hin : In (CallLLM "Fix it") (trace r)) by (vm_compute; tauto).
  assert (Hbr : In (CallCreateBranch "feature/fix-it") (trace r))
    by (vm_compute; tauto).
  assert (Hnone : applyCalls (trace r) = []) by (by vm_compute).
  assert (Hno : ∀ i, inquirer_confirm W i ≠ Abort).
  { apply answers_never_abort. repeat constructor; discriminate. }
  split_and!; [reflexivity|exact Hnone|exact Hbr|reflexivity|].
  exact (nothing_confirmed_checks_out_original_branch W "Fix it" o
           "feature/fix-it" "main" (proposal [a_ts])
           eq_refl ltac:(discriminate) Hno Hin Hnone Hbr
           ltac:(discriminate) eq_refl ltac:(discriminate)).
Defined.

Lemma staged_relative_paths_witness :
  let W := world [] [a_ts] (answers []) in
  let o := cli true false None in
  let r := generate W "Fix it" o in
  In (GitAdd ["a.ts"]) (trace r)
  ∧ ["a.ts"]
    = map (λ c, path_relative (path_resolve (process_cwd W) (path o))
                  (filePath c))
        (applyCalls (trace r))
  ∧ applyCalls (trace r) ≠ [].
Proof.
  intros W o r.
  assert (Hin : In (GitAdd ["a.ts"]) (trace r)) by (vm_compute; tauto).
  split; [exact Hin|].
  exact (staged_relative_paths W "Fix it" o ["a.ts"] Hin).
Defined.

Lemma not_logged_in_stops_at_once_witness :
  let W := with_auth (Resolved false) (world [] [a_ts] (answers [])) in
  let o := cli true false None in
  auth_getAuthToken W ≠ Resolved true
  ∧ outcome (generate W "Fix it" o) = Failed
  ∧ ∃ text,
      trace (generate W "Fix it" o)
      = [GetAuthToken; ConsoleError text; ProcessExit 1].
Proof.
  intros W o.
  assert (Hout : auth_getAuthToken W ≠ Resolved true) by discriminate.
  split; [exact Hout|].
  exact (not_logged_in_stops_at_once W "Fix it" o Hout).
Defined.

Lemma decisions_precede_mutations_witness :
  let W := world [] [a_ts; b_ts] (answers [Yes; Yes]) in
  let o := cli false true None in
  let tr1 := [GetAuthToken; ScanProject ["."] "/repo"; CallLLM "Fix it";
              PromptConfirm 0 a_ts; PromptConfirm 1 b_ts;
              CallApplyFileChange a_ts] in
  let e := CreateFile "/repo/a.ts" false "console.log(1)" in
  let tr2 := [CallApplyFileChange b_ts;
              CreateFile "/repo/b.ts" false "console.log(2)"] in
  trace (generate W "Fix it" o) = tr1 ++ e :: tr2
  ∧ remoteMutation e = true
  ∧ In (CallApplyFileChange b_ts) tr2
  ∧ promptEvent (CallApplyFileChange b_ts) = false.
Proof.
  intros W o tr1 e tr2.
  assert (Htr : trace (generate W "Fix it" o) = tr1 ++ e :: tr2)
    by (by vm_compute).
  assert (Hin : In (CallApplyFileChange b_ts) tr2) by (by left).
  split_and!; [exact Htr|reflexivity|exact Hin|].
  exact (decisions_precede_mutations W "Fix it" o tr1 e tr2 _
           Htr eq_refl Hin).
Defined.

Lemma repository_answer_is_not_read_witness :
  let W := with_checkIsRepo (Resolved false)
             (world [] [a_ts] (answers [])) in
  let o := cli true false None in
  auth_getAuthToken W = Resolved true
  ∧ noGit o = false
  ∧ git_checkIsRepo W = Resolved false
  ∧ isGitRepository W (path_resolve (process_cwd W) (path o)) o
    = ([GitCheckIsRepo], o, Normal true)
  ∧ ∃ rest,
      trace (generate W "Fix it" o)
      = GetAuthToken :: GitCheckIsRepo :: GitBranchLocal :: rest.
Proof.
  intros W o.
  split_and!; [reflexivity|reflexivity|reflexivity|..];
    apply (repository_answer_is_not_read W "Fix it" o false
             eq_refl eq_refl eq_refl).
Defined.

Lemma generateUnifiedDiff_empty_iff_witness :
  (∀ s, s ≠ "" → chalk_green s ≠ "" ∧ chalk_red s ≠ "" ∧ chalk_grey s ≠ "")
  ∧ (generateUnifiedDiff "a" "b" = ""
     ↔ diffLines "a" "b" = []
       ∨ ∃ part, diffLines "a" "b" = [part]
                 ∧ Diff.added part = None ∧ Diff.removed part = None).
Proof.
  assert (Hcolour : ∀ s, s ≠ "" →
            chalk_green s ≠ "" ∧ chalk_red s ≠ "" ∧ chalk_grey s ≠ "")
    by (intros s Hs; by cbn).
  split; [exact Hcolour|].
  exact (generateUnifiedDiff_empty_iff "a" "b" Hcolour).
Defined.

Lemma declined_git_calls_no_git_witness :
  let W := with_proceedGit false (world [] [a_ts] (answers [Yes])) in
  let o := cli false false None in
  noGit o = false
  ∧ yes o = false
  ∧ git_checkIsRepo W = Resolved true
  ∧ inquirer_proceedGit W = false
  ∧ In PromptProceedGit (trace (generate W "Fix it" o))
  ∧ gitEvent PromptProceedGit = true
  ∧ (PromptProceedGit = GitCheckIsRepo ∨ PromptProceedGit = GitBranchLocal
     ∨ PromptProceedGit = PromptProceedGit).
Proof.
  intros W o.
  assert (Hin : In PromptProceedGit (trace (generate W "Fix it" o)))
    by (vm_compute; tauto).
  split_and!; [reflexivity|reflexivity|reflexivity|reflexivity|exact Hin
              |reflexivity|].
  exact (declined_git_calls_no_git W "Fix it" o true _
           eq_refl eq_refl eq_refl eq_refl Hin eq_refl).
Defined.

(** After the question is declined the change is applied and nothing is
    staged. *)
Example declined_git_run :
  trace (generate (with_proceedGit false (world [] [a_ts] (answers [Yes])))
           "Fix it" (cli false false None))
  = [GetAuthToken; GitCheckIsRepo; GitBranchLocal; PromptProceedGit;
     ScanProject ["."] "/repo"; CallLLM "Fix it"; PromptConfirm 0 a_ts;
     CallApplyFileChange a_ts; CreateFile "/repo/a.ts" false "console.log(1)"].
Proof. by vm_compute. Qed.

Lemma scan_request_of_run_witness :
  let W := world [] [a_ts] (answers []) in
  let o := {| path := "."; scanDirs := Some ["src"]; scanFiles := Some [];
              yes := true; noGit := true; branch := None |} in
  In (ScanProject ["src"] "/repo") (trace (generate W "Fix it" o))
  ∧ ["src"] ≠ []
  ∧ ["src"]
    = (if decide (default [] (scanDirs o) ++ default [] (scanFiles o) = [])
       then ["."]
       else default [] (scanDirs o) ++ default [] (scanFiles o))
  ∧ "/repo" = path_resolve (process_cwd W) (path o).
Proof.
  intros W o.
  assert (Hin : In (ScanProject ["src"] "/repo")
                  (trace (generate W "Fix it" o)))
    by (vm_compute; tauto).
  split; [exact Hin|].
  exact (scan_request_of_run W "Fix it" o ["src"] "/repo" Hin).
Defined.

(** A backslash before [p] is escaped, and escaped again by a second
    pass. *)
Example repair_twice :
  let path := String JsonRepair.backslash "path" in
  JsonRepair.repairJsonBadEscapes path = String JsonRepair.backslash path
  ∧ JsonRepair.repairJsonBadEscapes (JsonRepair.repairJsonBadEscapes path)
    = String JsonRepair.backslash (String JsonRepair.backslash path).
Proof. by vm_compute. Qed.

End MoreEvaluated.
